(** * IPL3 boot hand-off: flat binary loader (stage 2) and cleanup (stage 3)

    Shallow embedding of [boot/loader_compat.c], [boot/cleanup.c] and
    [boot/loader.h].  The CPU side is embedded as functions of a small
    monad; the hardware side is a script: the list of the words that the
    successive volatile loads return.  Every run yields the trace of the
    externally visible actions (volatile loads and stores, calls to the
    helpers of minidragon.h, the stack set-up and the final jump). *)

From Stdlib Require Import ZArith List Lia Bool String.
Import ListNotations.
Local Open Scope Z_scope.

(** ** Machine words *)

(** A [uint32_t] is a [Z] in [0, 2^32); arithmetic wraps around. *)
Definition wrap32 (z : Z) : Z := z mod 2 ^ 32.

Definition sub32 (a b : Z) : Z := wrap32 (a - b).
Definition add32 (a b : Z) : Z := wrap32 (a + b).

(** Conversion of a 32-bit word to [int] (two's complement). *)
Definition to_int (w : Z) : Z := if w <? 2 ^ 31 then w else w - 2 ^ 32.

(** ** loader.h *)

Definition LOADER_SIZE : Z := 32 * 1024.
Definition TOTAL_RESERVED_SIZE : Z := LOADER_SIZE.

(** ** Locations touched by volatile accesses

    The register macros ([PI_STATUS], [SP_DMA_FULL], ...) come from
    minidragon.h; they are kept symbolic.  [Mem a] is a raw address. *)
Inductive loc : Type :=
| PI_DRAM_ADDR | PI_CART_ADDR | PI_WR_LEN | PI_STATUS
| SP_RSP_ADDR | SP_DRAM_ADDR | SP_RD_LEN | SP_WR_LEN
| SP_DMA_FULL | SP_DMA_BUSY
| Mem (a : Z).

(** ** Observable actions *)
Inductive event : Type :=
| EvRead (l : loc) (v : Z)          (* volatile load of [l] returned [v] *)
| EvWrite (l : loc) (v : Z)         (* volatile store of [v] to [l] *)
| EvRcpReset                        (* rcp_reset() *)
| EvCacheReset                      (* cop0_clear_cache() *)
| EvSiWrite (offset value : Z)      (* si_write(offset, value) *)
| EvSiWait                          (* si_wait() *)
| EvSetSP (v : Z)                   (* move $sp, v *)
| EvJump (target : Z).              (* goto *target *)

(** ** The monad

    A computation consumes the script and produces its trace.  It returns
    a value and the rest of the script ([Ret]), runs out of script while
    it still needs a word ([Starve]: the observation ends in the middle of
    a load or of a polling loop), or leaves the loader through the final
    jump ([Exit]); nothing runs after [Exit]. *)
Inductive result (A : Type) : Type :=
| Ret (a : A) (rest : list Z)
| Starve
| Exit.
Arguments Ret {A} a rest.
Arguments Starve {A}.
Arguments Exit {A}.

Definition M (A : Type) : Type := list Z -> list event * result A.

Definition ret {A} (a : A) : M A := fun s => ([], Ret a s).

Definition bind {A B} (m : M A) (f : A -> M B) : M B := fun s =>
  match m s with
  | (t, Ret a r) => let (t', o) := f a r in (t ++ t', o)
  | (t, Starve) => (t, Starve)
  | (t, Exit) => (t, Exit)
  end.

Notation "x <- m ;; k" := (bind m (fun x => k))
  (at level 61, m at next level, right associativity).
Notation "m ;;; k" := (bind m (fun _ => k))
  (at level 61, right associativity).

Definition emit (e : event) : M unit := fun s => ([e], Ret tt s).

(** [*(volatile uint32_t* ) l] *)
Definition load32 (l : loc) : M Z := fun s =>
  match s with
  | [] => ([], Starve)
  | x :: r => ([EvRead l (wrap32 x)], Ret (wrap32 x) r)
  end.

(** [*l = v] *)
Definition store32 (l : loc) (v : Z) : M unit := emit (EvWrite l (wrap32 v)).

(** [while ( *l & ...) {}]: poll [l] until [busy] is false of the word read. *)
Fixpoint spin (l : loc) (busy : Z -> bool) (s : list Z) : list event * result unit :=
  match s with
  | [] => ([], Starve)
  | x :: r =>
      if busy (wrap32 x)
      then let (t, o) := spin l busy r in (EvRead l (wrap32 x) :: t, o)
      else ([EvRead l (wrap32 x)], Ret tt r)
  end.

(** [goto *(void* )target] *)
Definition goto (target : Z) : M Empty_set := fun _ => ([EvJump target], Exit).

Definition trace_of {A} (o : list event * result A) : list event := fst o.
Definition exited {A} (o : list event * result A) : bool :=
  match snd o with Exit => true | _ => false end.

(** ** minidragon.h: helpers whose bodies are not part of these files *)

Definition rcp_reset : M unit := emit EvRcpReset.
Definition cop0_clear_cache : M unit := emit EvCacheReset.
Definition si_write (offset value : Z) : M unit := emit (EvSiWrite offset value).
Definition si_wait : M unit := emit EvSiWait.

Definition nonzero (v : Z) : bool := negb (v =? 0).

(** ** cleanup.c *)

Inductive variant : Type := Normal | Compat.

Definition pif_terminate_boot : M unit := si_write 0x7FC 0x8.

Section CleanupUnit.
(** The value of the macro [TOTAL_RESERVED_SIZE] the unit is built with. *)
Variable reserved : Z.

Definition stage3_body (v : variant) (entrypoint : Z) : M Empty_set :=
  word <- match v with
          | Normal => pif_terminate_boot ;;; load32 (Mem 0xA4000000)
          | Compat => load32 (Mem 0x80000318)
          end ;;
  let memsize := to_int word in
  cop0_clear_cache ;;;
  spin SP_DMA_FULL nonzero ;;;
  store32 SP_RSP_ADDR 0xA4001000 ;;;
  store32 SP_DRAM_ADDR (memsize - reserved) ;;;
  store32 SP_WR_LEN (Z.lor (Z.shiftl (Z.shiftr reserved 10 - 1) 12) (1024 - 1)) ;;;
  spin SP_DMA_FULL nonzero ;;;
  store32 SP_DRAM_ADDR 0x00802000 ;;;
  match v with
  | Normal =>
      store32 SP_RSP_ADDR 0xA4000010 ;;;
      store32 SP_RD_LEN (4096 - 16 - 1) ;;;
      si_wait
  | Compat =>
      store32 SP_RSP_ADDR 0xA4000000 ;;;
      store32 SP_RD_LEN (4096 - 1)
  end ;;;
  spin SP_DMA_BUSY nonzero ;;;
  match v with
  | Normal => emit (EvSetSP (sub32 (add32 0x80000000 (wrap32 memsize)) 0x10))
  | Compat => ret tt
  end ;;;
  goto entrypoint.

(** [_Static_assert((TOTAL_RESERVED_SIZE % 1024) == 0, ...)] *)
Definition static_assert_reserved : bool := Z.rem reserved 1024 =? 0.
End CleanupUnit.

(** Outcome of building a translation unit. *)
Inductive build (A : Type) : Type :=
| Built (unit : A)
| BuildError (msg : string).
Arguments Built {A} unit.
Arguments BuildError {A} msg.

Definition compile_cleanup (reserved : Z) : build (variant -> Z -> M Empty_set) :=
  if static_assert_reserved reserved
  then Built (stage3_body reserved)
  else BuildError "TOTAL_RESERVED_SIZE must be multiple of 1024".

Definition stage3 : variant -> Z -> M Empty_set := stage3_body TOTAL_RESERVED_SIZE.

(** ** loader_compat.c *)

Section LoaderCompat.
(** The two status bits of minidragon.h tested by the polling loops. *)
Variables PI_STATUS_DMA_BUSY PI_STATUS_IO_BUSY : Z.

Definition pi_busy (status : Z) : bool :=
  negb (Z.land status (Z.lor PI_STATUS_DMA_BUSY PI_STATUS_IO_BUSY) =? 0).

Definition io_read32 (vaddrx : Z) : M Z :=
  load32 (Mem (Z.lor vaddrx 0xA0000000)).

Definition pi_read_async (dram_addr cart_addr len : Z) : M unit :=
  spin PI_STATUS pi_busy ;;;
  store32 PI_DRAM_ADDR dram_addr ;;;
  store32 PI_CART_ADDR cart_addr ;;;
  store32 PI_WR_LEN (len - 1).

Definition pi_wait : M unit := spin PI_STATUS pi_busy.

(** Lines 41-42: the size actually transferred. *)
Definition stage2_size (entrypoint size : Z) : Z :=
  if (size =? 0)
     || (size >? sub32 (sub32 (Z.shiftl 8 20) (Z.land entrypoint 0x1FFFFFFF))
                       TOTAL_RESERVED_SIZE)
  then Z.shiftl 1 20
  else size.

Definition stage2 (v : variant) : M Empty_set :=
  entrypoint <- io_read32 0x10000008 ;;
  size <- io_read32 0x10000010 ;;
  let size := stage2_size entrypoint size in
  pi_read_async entrypoint 0x10001000 size ;;;
  pi_wait ;;;
  rcp_reset ;;;
  stage3 v entrypoint.
End LoaderCompat.

(** ** Reading traces *)

(** The loads of a polling loop on [l] that read the words [vs]. *)
Definition reads (l : loc) (vs : list Z) : list event :=
  map (fun x => EvRead l (wrap32 x)) vs.

(** [vs] is a complete poll: busy words, then one word that is not. *)
Fixpoint completes (busy : Z -> bool) (vs : list Z) : bool :=
  match vs with
  | [] => false
  | x :: r =>
      if busy (wrap32 x) then completes busy r
      else match r with [] => true | _ :: _ => false end
  end.

(** Loads of the status registers, as opposed to everything else. *)
Definition is_poll (e : event) : bool :=
  match e with
  | EvRead PI_STATUS _ | EvRead SP_DMA_FULL _ | EvRead SP_DMA_BUSY _ => true
  | _ => false
  end.

(** The trace without the polling loads. *)
Definition actions (t : list event) : list event :=
  filter (fun e => negb (is_poll e)) t.

Definition is_status (l : loc) : bool :=
  match l with PI_STATUS | SP_DMA_FULL | SP_DMA_BUSY => true | _ => false end.

(** [p] is an initial segment of [t]. *)
Definition prefix_of {A} (p t : list A) : Prop := exists q, t = p ++ q.

(** ** Properties of computations *)

(** A computation that cannot leave through the jump. *)
Definition stays {A} (m : M A) : Prop := forall s t, m s <> (t, Exit).

(** Running [m] on a longer script extends its run on the shorter one. *)
Definition extends {A} (m : M A) : Prop :=
  forall s ext,
    match m s with
    | (t, Ret a r) => m (s ++ ext) = (t, Ret a (r ++ ext))
    | (t, Exit) => m (s ++ ext) = (t, Exit)
    | (t, Starve) => prefix_of t (trace_of (m (s ++ ext)))
    end.

(** The script ends with [n] words that read as zero. *)
Definition quiet (n : nat) (s : list Z) : Prop := exists p, s = p ++ repeat 0 n.

(** [m] returns as soon as [k] idle words are available. *)
Definition returns_within {A} (k : nat) (m : M A) : Prop :=
  forall n s, quiet (k + n) s -> exists t a r, m s = (t, Ret a r) /\ quiet n r.

(** [m] reaches the jump as soon as [k] idle words are available. *)
Definition exits_within {A} (k : nat) (m : M A) : Prop :=
  forall s, quiet k s -> exists t, m s = (t, Exit).

(** ** The traces of complete runs *)

(** The store of [v], as a [uint32_t], to [l]. *)
Definition W (l : loc) (v : Z) : event := EvWrite l (wrap32 v).

(** The descriptor that clears the reserved region. *)
Definition clear_reserved (reserved word : Z) : list event :=
  [ W SP_RSP_ADDR 0xA4001000;
    W SP_DRAM_ADDR (to_int word - reserved);
    W SP_WR_LEN (Z.lor (Z.shiftl (Z.shiftr reserved 10 - 1) 12) (1024 - 1)) ].

(** The descriptor that clears the scratch memory. *)
Definition clear_dmem (v : variant) : list event :=
  match v with
  | Normal => [ W SP_DRAM_ADDR 0x00802000; W SP_RSP_ADDR 0xA4000010;
                W SP_RD_LEN (4096 - 16 - 1); EvSiWait ]
  | Compat => [ W SP_DRAM_ADDR 0x00802000; W SP_RSP_ADDR 0xA4000000;
                W SP_RD_LEN (4096 - 1) ]
  end.

(** The start of stage 3, up to the load of the memory size. *)
Definition read_memsize (v : variant) (x : Z) : list event :=
  match v with
  | Normal => [ EvSiWrite 0x7FC 0x8; EvRead (Mem 0xA4000000) (wrap32 x) ]
  | Compat => [ EvRead (Mem 0x80000318) (wrap32 x) ]
  end.

(** The end of stage 3, after the last poll. *)
Definition handoff (v : variant) (entrypoint word : Z) : list event :=
  match v with
  | Normal => [ EvSetSP (sub32 (add32 0x80000000 (wrap32 (to_int word))) 0x10);
                EvJump entrypoint ]
  | Compat => [ EvJump entrypoint ]
  end.

(** The trace of a run of stage 3 that reads [x] as memory size and whose
    three polling loops read [F1], [F2] and [B]. *)
Definition stage3_trace (reserved : Z) (v : variant) (entrypoint x : Z)
    (F1 F2 B : list Z) : list event :=
  read_memsize v x ++ [EvCacheReset]
  ++ reads SP_DMA_FULL F1 ++ clear_reserved reserved (wrap32 x)
  ++ reads SP_DMA_FULL F2 ++ clear_dmem v
  ++ reads SP_DMA_BUSY B ++ handoff v entrypoint (wrap32 x).

(** The two loads of the cartridge header. *)
Definition read_header (e s : Z) : list event :=
  [ EvRead (Mem (Z.lor 0x10000008 0xA0000000)) (wrap32 e);
    EvRead (Mem (Z.lor 0x10000010 0xA0000000)) (wrap32 s) ].

(** The trace of a complete run: header words [e] and [s], polls [P1]
    and [P2] of the cartridge engine, then stage 3. *)
Definition stage2_trace (v : variant) (e s : Z) (P1 P2 : list Z)
    (x : Z) (F1 F2 B : list Z) : list event :=
  read_header e s
  ++ reads PI_STATUS P1
  ++ [ EvWrite PI_DRAM_ADDR (wrap32 e); EvWrite PI_CART_ADDR 0x10001000;
       EvWrite PI_WR_LEN (wrap32 (stage2_size (wrap32 e) (wrap32 s) - 1)) ]
  ++ reads PI_STATUS P2 ++ [EvRcpReset]
  ++ stage3_trace TOTAL_RESERVED_SIZE v (wrap32 e) x F1 F2 B.

(** The same traces without their polling loads. *)
Definition stage3_actions (reserved : Z) (v : variant) (entrypoint x : Z) : list event :=
  read_memsize v x ++ [EvCacheReset]
  ++ clear_reserved reserved (wrap32 x) ++ clear_dmem v
  ++ handoff v entrypoint (wrap32 x).

Definition stage2_actions (v : variant) (e s x : Z) : list event :=
  read_header e s
  ++ [ EvWrite PI_DRAM_ADDR (wrap32 e); EvWrite PI_CART_ADDR 0x10001000;
       EvWrite PI_WR_LEN (wrap32 (stage2_size (wrap32 e) (wrap32 s) - 1)) ]
  ++ [EvRcpReset]
  ++ stage3_actions TOTAL_RESERVED_SIZE v (wrap32 e) x.

(** ** Transfers given to the engines *)

(** The transfers started on the cartridge engine: a store to [PI_WR_LEN]
    starts one, from the cartridge address to the RAM address last
    programmed; the register holds the byte count minus one, as
    [pi_read_async] stores [len-1]. *)
Fixpoint pi_transfers_from (dram cart : Z) (t : list event) : list (Z * Z * Z) :=
  match t with
  | [] => []
  | EvWrite PI_DRAM_ADDR v :: t' => pi_transfers_from v cart t'
  | EvWrite PI_CART_ADDR v :: t' => pi_transfers_from dram v t'
  | EvWrite PI_WR_LEN v :: t' => (dram, cart, v + 1) :: pi_transfers_from dram cart t'
  | _ :: t' => pi_transfers_from dram cart t'
  end.

Definition pi_transfers : list event -> list (Z * Z * Z) := pi_transfers_from 0 0.

Inductive direction : Type :=
| ToRdram    (* started by a store to [SP_WR_LEN]: scratch memory to RAM *)
| ToSpmem.   (* started by a store to [SP_RD_LEN]: RAM to scratch memory *)

(** The descriptors given to the coprocessor engine: direction, scratch
    address, RAM address and length word, the two addresses being the
    ones last programmed. *)
Fixpoint sp_transfers_from (rsp dram : Z) (t : list event)
    : list (direction * Z * Z * Z) :=
  match t with
  | [] => []
  | EvWrite SP_RSP_ADDR v :: t' => sp_transfers_from v dram t'
  | EvWrite SP_DRAM_ADDR v :: t' => sp_transfers_from rsp v t'
  | EvWrite SP_WR_LEN w :: t' => (ToRdram, rsp, dram, w) :: sp_transfers_from rsp dram t'
  | EvWrite SP_RD_LEN w :: t' => (ToSpmem, rsp, dram, w) :: sp_transfers_from rsp dram t'
  | _ :: t' => sp_transfers_from rsp dram t'
  end.

Definition sp_transfers : list event -> list (direction * Z * Z * Z) :=
  sp_transfers_from 0 0.

(** Modelled from the spec: the length word of the coprocessor engine
    (hardware, no source) packs a count of blocks with a remainder minus
    one.  This is the block field, from bit 12 up, eight bits wide; stage 3
    stores the number of 1024-byte blocks minus one there. *)
Definition sp_len_blocks (w : Z) : Z := Z.land (Z.shiftr w 12) 0xFF.

(** Modelled from the spec: the remainder-minus-one field of the length
    word of the coprocessor engine, its low 12 bits. *)
Definition sp_len_remainder (w : Z) : Z := Z.land w 0xFFF.

(** Modelled from the spec: the bytes a length word of the coprocessor
    engine stands for, [blocks + 1] rows of [remainder + 1] bytes. *)
Definition sp_len_bytes (w : Z) : Z := (sp_len_blocks w + 1) * (sp_len_remainder w + 1).

(** The length word stage 3 builds for a reserved region of [reserved] bytes. *)
Definition reserved_len_word (reserved : Z) : Z :=
  Z.lor (Z.shiftl (reserved / 1024 - 1) 12) (1024 - 1).

(** ** Views of a trace *)

Definition is_si_write (e : event) : bool :=
  match e with EvSiWrite _ _ => true | _ => false end.

Definition is_si_or_jump (e : event) : bool :=
  match e with EvSiWrite _ _ | EvSiWait | EvJump _ => true | _ => false end.

Definition is_si (e : event) : bool :=
  match e with EvSiWrite _ _ | EvSiWait => true | _ => false end.

Definition is_sp_or_jump (e : event) : bool :=
  match e with EvSetSP _ | EvJump _ => true | _ => false end.

(** Modelled from the spec: [si_write] and [si_wait] are helpers of
    minidragon.h, whose bodies are missing.  Per the spec the mailbox write
    is fire-and-forget and raises a completion signal when the transaction
    ends, and [si_wait] returns when the transaction is complete and its
    completion signal is cleared. *)
Definition si_step (pending : bool) (e : event) : bool :=
  match e with
  | EvSiWrite _ _ => true
  | EvSiWait => false
  | _ => pending
  end.

(** Modelled from the spec: whether a completion signal of the mailbox is
    pending after the trace, none being pending before it. *)
Definition si_signal_pending (t : list event) : bool := fold_left si_step t false.

Definition is_mem_read (e : event) : bool :=
  match e with EvRead (Mem _) _ => true | _ => false end.

(** ** Operations in order *)

Inductive op : Type :=
| OpLoad                              (* cartridge transfer started *)
| OpCacheReset                        (* cop0_clear_cache() *)
| OpClearRam (dram bytes : Z)         (* scratch-to-RAM transfer: RAM address, size *)
| OpClearScratch (first bytes : Z)    (* RAM-to-scratch transfer: first offset, size *)
| OpDrain                             (* si_wait() *)
| OpSetStack                          (* stack pointer set *)
| OpJump.                             (* jump to the entry point *)

(** The operations of a trace, in order; the two coprocessor address
    registers are tracked to tell what each transfer covers. *)
Fixpoint milestones_from (rsp dram : Z) (t : list event) : list op :=
  match t with
  | [] => []
  | EvWrite PI_WR_LEN _ :: t' => OpLoad :: milestones_from rsp dram t'
  | EvCacheReset :: t' => OpCacheReset :: milestones_from rsp dram t'
  | EvWrite SP_RSP_ADDR v :: t' => milestones_from v dram t'
  | EvWrite SP_DRAM_ADDR v :: t' => milestones_from rsp v t'
  | EvWrite SP_WR_LEN w :: t' =>
      OpClearRam dram (sp_len_bytes w) :: milestones_from rsp dram t'
  | EvWrite SP_RD_LEN w :: t' =>
      OpClearScratch (Z.land rsp 0xFFF) (sp_len_bytes w) :: milestones_from rsp dram t'
  | EvSiWait :: t' => OpDrain :: milestones_from rsp dram t'
  | EvSetSP _ :: t' => OpSetStack :: milestones_from rsp dram t'
  | EvJump _ :: t' => OpJump :: milestones_from rsp dram t'
  | _ :: t' => milestones_from rsp dram t'
  end.

Definition milestones : list event -> list op := milestones_from 0 0.

(** The documented sequences. *)
Definition normal_sequence (memsize : Z) : list op :=
  [ OpLoad; OpCacheReset;
    OpClearRam ((memsize - TOTAL_RESERVED_SIZE) mod 2 ^ 32) TOTAL_RESERVED_SIZE;
    OpClearScratch 16 (4096 - 16); OpDrain; OpSetStack; OpJump ].

Definition compat_sequence (memsize : Z) : list op :=
  [ OpLoad; OpCacheReset;
    OpClearRam ((memsize - TOTAL_RESERVED_SIZE) mod 2 ^ 32) TOTAL_RESERVED_SIZE;
    OpClearScratch 0 4096; OpJump ].

Definition sequence_of (v : variant) : Z -> list op :=
  match v with Normal => normal_sequence | Compat => compat_sequence end.

(** ** Polling discipline *)

(** What the CPU knows of the two engines: whether the last word it read
    from [PI_STATUS], [SP_DMA_FULL], [SP_DMA_BUSY] since the last
    descriptor it gave to that engine reported idle (resp. not full), and
    whether every descriptor and the hand-off came after the report they
    need. *)
Record watch : Type := {
  pi_idle : bool;
  sp_free : bool;
  sp_idle : bool;
  ok : bool
}.

(** What a descriptor for the coprocessor engine has to wait for. *)
Inductive policy : Type :=
| IdleBeforeIssue       (* the engine reported idle: [SP_DMA_BUSY] read as zero *)
| NotFullBeforeIssue.   (* the engine reported a free slot: [SP_DMA_FULL] read as zero *)

Section Discipline.
Variables DMA_BUSY IO_BUSY : Z.
Variable p : policy.

Definition watch_step (st : watch) (e : event) : watch :=
  match e with
  | EvRead PI_STATUS w =>
      {| pi_idle := negb (pi_busy DMA_BUSY IO_BUSY w);
         sp_free := sp_free st; sp_idle := sp_idle st; ok := ok st |}
  | EvRead SP_DMA_FULL w =>
      {| pi_idle := pi_idle st; sp_free := negb (nonzero w);
         sp_idle := sp_idle st; ok := ok st |}
  | EvRead SP_DMA_BUSY w =>
      {| pi_idle := pi_idle st; sp_free := sp_free st;
         sp_idle := negb (nonzero w); ok := ok st |}
  | EvWrite PI_WR_LEN _ =>
      {| pi_idle := false; sp_free := sp_free st; sp_idle := sp_idle st;
         ok := ok st && pi_idle st |}
  | EvWrite SP_RD_LEN _ | EvWrite SP_WR_LEN _ =>
      {| pi_idle := pi_idle st; sp_free := false; sp_idle := false;
         ok := ok st && match p with
                        | IdleBeforeIssue => sp_idle st
                        | NotFullBeforeIssue => sp_free st
                        end |}
  | EvSetSP _ | EvJump _ =>
      {| pi_idle := pi_idle st; sp_free := sp_free st; sp_idle := sp_idle st;
         ok := ok st && sp_idle st |}
  | _ => st
  end.

Definition watch_run (st : watch) (t : list event) : watch := fold_left watch_step t st.
End Discipline.

(** Both engines taken as idle when the loader starts. *)
Definition engines_idle : watch :=
  {| pi_idle := true; sp_free := true; sp_idle := true; ok := true |}.

(** Nothing known about the engines when the loader starts. *)
Definition engines_unknown : watch :=
  {| pi_idle := false; sp_free := false; sp_idle := false; ok := true |}.

(** The discipline as claimed: a descriptor goes to an engine only once
    the engine has reported idle for the previous one, and the stack
    set-up and the jump come after the coprocessor engine reported idle. *)
Definition single_outstanding (DMA_BUSY IO_BUSY : Z) (t : list event) : bool :=
  ok (watch_run DMA_BUSY IO_BUSY IdleBeforeIssue engines_idle t).

(** The discipline of the code: a cartridge descriptor after [PI_STATUS]
    showed no busy bit, a coprocessor descriptor after [SP_DMA_FULL] read
    as zero, the stack set-up and the jump after [SP_DMA_BUSY] read as
    zero; each report is asked for anew after every descriptor. *)
Definition polled_before_use (DMA_BUSY IO_BUSY : Z) (t : list event) : bool :=
  ok (watch_run DMA_BUSY IO_BUSY NotFullBeforeIssue engines_unknown t).

(** ** Memory *)

(** RAM and the coprocessor's scratch memory, byte by byte.  Scratch
    offsets 0x000-0xFFF are DMEM and 0x1000-0x1FFF are IMEM. *)
Record memory : Type := {
  rdram : Z -> Z;
  spmem : Z -> Z
}.

Definition upd (f : Z -> Z) (a v : Z) : Z -> Z :=
  fun x => if x =? a then v else f x.

(** Modelled from the spec: the coprocessor-bus engine is hardware and has
    no source.  This is the scratch offset of the [k]-th byte of a
    transfer whose scratch address is [rsp]: the address stays inside the
    4 KiB bank (DMEM or IMEM) it starts in. *)
Definition sp_slot (rsp k : Z) : Z := Z.land rsp 0x1000 + Z.land (rsp + k) 0xFFF.

(** Modelled from the spec: the copy of the [k]-th byte of a transfer of
    the coprocessor-bus engine, from its source to its destination. *)
Definition copy_byte (d : direction) (rsp dram : Z) (m : memory) (k : Z) : memory :=
  match d with
  | ToRdram => {| rdram := upd (rdram m) (dram + k) (spmem m (sp_slot rsp k));
                  spmem := spmem m |}
  | ToSpmem => {| rdram := rdram m;
                  spmem := upd (spmem m) (sp_slot rsp k) (rdram m (dram + k)) |}
  end.

(** Modelled from the spec: as the spec has it for [scratch_clear_dma], a
    transfer of the coprocessor-bus engine copies [n] bytes from its
    source to its destination, here in increasing order. *)
Fixpoint copy_bytes (d : direction) (rsp dram : Z) (n : nat) (m : memory) : memory :=
  match n with
  | O => m
  | S n' => copy_byte d rsp dram (copy_bytes d rsp dram n' m) (Z.of_nat n')
  end.

(** Modelled from the spec: a descriptor of the coprocessor-bus engine
    copies as many bytes as its length word encodes. *)
Definition sp_dma (m : memory) (x : direction * Z * Z * Z) : memory :=
  let '(d, rsp, dram, w) := x in
  copy_bytes d rsp dram (Z.to_nat (sp_len_bytes w)) m.

(** Modelled from the spec: memory once the coprocessor transfers of the
    trace are done, taken in the order they were given; stage 3 only hands
    off after the engine reported idle. *)
Definition memory_after (t : list event) (m : memory) : memory :=
  fold_left sp_dma (sp_transfers t) m.

(** First scratch offset cleared by stage 3. *)
Definition first_cleared (v : variant) : Z :=
  match v with Normal => 16 | Compat => 0 end.

(** ** loader.h: the address macros *)

(** [LOADER_BASE(memsize, stage2size)]: the sum has type [unsigned int]
    because of the constant 0x80000000. *)
Definition LOADER_BASE (memsize stage2size : Z) : Z :=
  sub32 (add32 0x80000000 (wrap32 memsize)) (wrap32 stage2size).

(** [STACK2_TOP(memsize, stage2size)]: 16 bytes below the loader. *)
Definition STACK2_TOP (memsize stage2size : Z) : Z :=
  sub32 (LOADER_BASE memsize stage2size) 16.

(** ** Nothing but polling while the cartridge transfer is in flight *)

(** [in_flight]: a cartridge transfer was started and [PI_STATUS] has not
    been read as idle since.  [only_polled]: nothing but loads of
    [PI_STATUS] happened while a transfer was in flight. *)
Record flight : Type := {
  in_flight : bool;
  only_polled : bool
}.

Definition flight_step (DMA_BUSY IO_BUSY : Z) (st : flight) (e : event) : flight :=
  match e with
  | EvRead PI_STATUS w =>
      {| in_flight := in_flight st && pi_busy DMA_BUSY IO_BUSY w;
         only_polled := only_polled st |}
  | EvWrite PI_WR_LEN _ =>
      {| in_flight := true; only_polled := only_polled st && negb (in_flight st) |}
  | _ =>
      {| in_flight := in_flight st; only_polled := only_polled st && negb (in_flight st) |}
  end.

Definition flight_run (DMA_BUSY IO_BUSY : Z) (st : flight) (t : list event) : flight :=
  fold_left (flight_step DMA_BUSY IO_BUSY) t st.

Definition polls_while_loading (DMA_BUSY IO_BUSY : Z) (t : list event) : bool :=
  only_polled (flight_run DMA_BUSY IO_BUSY
                 {| in_flight := false; only_polled := true |} t).

(** The mailbox calls and the starts of the coprocessor transfers. *)
Definition is_si_or_sp_start (e : event) : bool :=
  match e with
  | EvSiWrite _ _ | EvSiWait | EvWrite SP_WR_LEN _ | EvWrite SP_RD_LEN _ => true
  | _ => false
  end.

(** Address of the memory size word read by stage 3. *)
Definition memsize_addr (v : variant) : Z :=
  match v with Normal => 0xA4000000 | Compat => 0x80000318 end.

(** ** tools/common/binout.h: the conversion check of [w8], [w16], [w32] *)

(** [(int64_t)v] for an integer [v] of at most 64 bits. *)
Definition to_int64 (v : Z) : Z :=
  let w := v mod 2 ^ 64 in if w <? 2 ^ 63 then w else w - 2 ^ 64.

(** What [_wconv] yields: [truncation] is [Some ext] when the fatal branch
    is taken (the message is printed and the assertion fails), and
    [converted] is the value of [(type)_v], which is what is written when
    assertions are compiled out. *)
Record wconv_result : Type := {
  truncation : option Z;
  converted : Z
}.

(** [_wconv(type, v)] for an unsigned [type] of [size_type] bytes and an
    integer [v] of [size_v] bytes. *)
Definition _wconv (size_type size_v : Z) (v : Z) : wconv_result :=
  {| truncation :=
       if size_type <? size_v then
         let ext := Z.shiftr (to_int64 v) (size_type * 8) in
         if negb (ext =? 0) && negb (ext mod 2 ^ 64 =? (-1) mod 2 ^ 64)
         then Some ext else None
       else None;
     converted := v mod 2 ^ (size_type * 8) |}.

(** The value of an [n]-bit word read as a signed number. *)
Definition as_signed (n : Z) (w : Z) : Z :=
  if w <? 2 ^ (n - 1) then w else w - 2 ^ n.

(** * Generic facts about the monad *)

Lemma wrap32_range z : 0 <= wrap32 z < 2 ^ 32.
Proof. unfold wrap32. apply Z.mod_pos_bound. lia. Qed.

Lemma wrap32_small z : 0 <= z < 2 ^ 32 -> wrap32 z = z.
Proof. intros H. unfold wrap32. now apply Z.mod_small. Qed.

Lemma wrap32_idem z : wrap32 (wrap32 z) = wrap32 z.
Proof. apply wrap32_small, wrap32_range. Qed.

Lemma actions_app a b : actions (a ++ b) = actions a ++ actions b.
Proof. unfold actions. apply filter_app. Qed.

Lemma actions_reads l vs : is_status l = true -> actions (reads l vs) = [].
Proof.
  intros Hl. induction vs as [|x vs IH]; [reflexivity|].
  unfold actions, reads in *. simpl. rewrite IH.
  destruct l; simpl in *; try discriminate; reflexivity.
Qed.

Lemma spin_ret l busy s t u r :
  spin l busy s = (t, Ret u r) ->
  exists vs, s = vs ++ r /\ completes busy vs = true /\ t = reads l vs.
Proof.
  revert t. induction s as [|x s IH]; intros t H; simpl in H; [discriminate|].
  destruct (busy (wrap32 x)) eqn:Hb.
  - destruct (spin l busy s) as [t' o] eqn:Hs. inversion H; subst.
    destruct (IH _ eq_refl) as (vs & -> & Hc & ->).
    exists (x :: vs). simpl. rewrite Hb. auto.
  - inversion H; subst. exists [x]. simpl. rewrite Hb. auto.
Qed.

Lemma spin_complete l busy vs r :
  completes busy vs = true -> spin l busy (vs ++ r) = (reads l vs, Ret tt r).
Proof.
  induction vs as [|x vs IH]; simpl; [discriminate|].
  destruct (busy (wrap32 x)) eqn:Hb; intros H.
  - rewrite (IH H). reflexivity.
  - destruct vs; [reflexivity | discriminate].
Qed.

Lemma spin_starve l busy s t :
  spin l busy s = (t, Starve) ->
  forallb (fun x => busy (wrap32 x)) s = true /\ t = reads l s.
Proof.
  revert t. induction s as [|x s IH]; intros t H; simpl in H.
  - inversion H. auto.
  - destruct (busy (wrap32 x)) eqn:Hb; [|discriminate].
    destruct (spin l busy s) as [t' o] eqn:Hs. inversion H; subst.
    destruct (IH _ eq_refl) as [Hf ->]. simpl. rewrite Hb, Hf. auto.
Qed.

Lemma spin_no_exit l busy s t : spin l busy s <> (t, Exit).
Proof.
  revert t. induction s as [|x s IH]; intros t H; simpl in H; [discriminate|].
  destruct (busy (wrap32 x)); [|discriminate].
  destruct (spin l busy s) as [t' o] eqn:Hs. inversion H; subst.
  now apply (IH t').
Qed.

Lemma stays_emit e : stays (emit e).
Proof. intros s t H. discriminate. Qed.

Lemma stays_store32 l v : stays (store32 l v).
Proof. apply stays_emit. Qed.

Lemma stays_load32 l : stays (load32 l).
Proof. intros [|x s] t H; discriminate. Qed.

Lemma stays_spin l busy : stays (spin l busy).
Proof. intros s t. apply spin_no_exit. Qed.

Lemma stays_ret {A} (a : A) : stays (ret a).
Proof. intros s t H. discriminate. Qed.

Lemma stays_bind {A B} (m : M A) (f : A -> M B) :
  stays m -> (forall a, stays (f a)) -> stays (bind m f).
Proof.
  intros Hm Hf s t H. unfold bind in H.
  destruct (m s) as [t1 [a r| |]] eqn:E.
  - destruct (f a r) as [t2 o] eqn:E2. inversion H; subst. now apply (Hf a r t2).
  - discriminate.
  - now apply (Hm s t1).
Qed.

(** Inversion of a run of [bind m f] that reaches the jump. *)
Lemma bind_exit {A B} (m : M A) (f : A -> M B) s t :
  stays m -> bind m f s = (t, Exit) ->
  exists t1 a r t2, m s = (t1, Ret a r) /\ f a r = (t2, Exit) /\ t = t1 ++ t2.
Proof.
  intros Hm H. unfold bind in H.
  destruct (m s) as [t1 [a r| |]] eqn:E.
  - destruct (f a r) as [t2 o] eqn:E2. inversion H; subst. eauto 8.
  - discriminate.
  - now destruct (Hm s t1).
Qed.

(** ** Longer scripts extend runs *)

Lemma prefix_of_refl {A} (t : list A) : prefix_of t t.
Proof. exists []. now rewrite app_nil_r. Qed.

Lemma prefix_of_nil {A} (t : list A) : prefix_of [] t.
Proof. now exists t. Qed.

Lemma prefix_of_app {A} (t p q : list A) : prefix_of p q -> prefix_of (t ++ p) (t ++ q).
Proof. intros [r ->]. exists r. now rewrite app_assoc. Qed.

Lemma prefix_of_app_r {A} (p q : list A) : prefix_of p (p ++ q).
Proof. now exists q. Qed.

Lemma prefix_of_trans {A} (p q r : list A) : prefix_of p q -> prefix_of q r -> prefix_of p r.
Proof. intros [a ->] [b ->]. exists (a ++ b). now rewrite app_assoc. Qed.

Lemma extends_emit e : extends (emit e).
Proof. intros s ext. reflexivity. Qed.

Lemma extends_ret {A} (a : A) : extends (ret a).
Proof. intros s ext. reflexivity. Qed.

Lemma extends_goto e : extends (goto e).
Proof. intros s ext. reflexivity. Qed.

Lemma extends_load32 l : extends (load32 l).
Proof. intros [|x s] ext; simpl; [apply prefix_of_nil | reflexivity]. Qed.

Lemma extends_spin l busy : extends (spin l busy).
Proof.
  intros s ext. induction s as [|x s IH]; simpl.
  - apply prefix_of_nil.
  - destruct (busy (wrap32 x)); [|reflexivity].
    destruct (spin l busy s) as [t [a r| |]] eqn:E.
    + rewrite IH. reflexivity.
    + destruct (spin l busy (s ++ ext)) as [t' o']. simpl in *.
      now apply (prefix_of_app [EvRead l (wrap32 x)]).
    + rewrite IH. reflexivity.
Qed.

Lemma extends_bind {A B} (m : M A) (f : A -> M B) :
  extends m -> (forall a, extends (f a)) -> extends (bind m f).
Proof.
  intros Hm Hf s ext. unfold bind. specialize (Hm s ext).
  destruct (m s) as [t [a r| |]] eqn:E.
  - rewrite Hm. specialize (Hf a r ext).
    destruct (f a r) as [t2 [b r2| |]] eqn:E2.
    + now rewrite Hf.
    + destruct (f a (r ++ ext)) as [t3 o3]. simpl in *. now apply prefix_of_app.
    + now rewrite Hf.
  - destruct (m (s ++ ext)) as [t' [a r| |]]; simpl in *; auto.
    destruct (f a r) as [t2 o2]. simpl.
    eapply prefix_of_trans; [exact Hm | apply prefix_of_app_r].
  - now rewrite Hm.
Qed.

Lemma extends_prefix {A} (m : M A) s ext :
  extends m -> prefix_of (trace_of (m s)) (trace_of (m (s ++ ext))).
Proof.
  intros H. specialize (H s ext).
  destruct (m s) as [t [a r| |]]; simpl; try (rewrite H; apply prefix_of_refl).
  exact H.
Qed.

(** ** Hardware that ends up idle lets every run go on *)

Lemma quiet_snoc n p : quiet n (p ++ repeat 0 (S n)).
Proof.
  exists (p ++ [0]). rewrite <- app_assoc. reflexivity.
Qed.

Lemma returns_emit e : returns_within 0 (emit e).
Proof. intros n s H. exists [e], tt, s. auto. Qed.

Lemma returns_ret {A} (a : A) : returns_within 0 (ret a).
Proof. intros n s H. exists [], a, s. auto. Qed.

Lemma returns_load32 l : returns_within 1 (load32 l).
Proof.
  intros n s [p ->]. destruct p as [|x p]; simpl.
  - do 3 eexists. split; [reflexivity|]. now exists [].
  - do 3 eexists. split; [reflexivity|]. apply quiet_snoc.
Qed.

Lemma spin_idle_word l busy p z :
  busy 0 = false ->
  exists t q, spin l busy (p ++ 0 :: z) = (t, Ret tt (q ++ z)).
Proof.
  intros Hb. induction p as [|x p IH]; simpl.
  - change (wrap32 0) with 0. rewrite Hb. now exists [EvRead l 0], [].
  - destruct (busy (wrap32 x)).
    + destruct IH as (t & q & ->). eauto.
    + exists [EvRead l (wrap32 x)], (p ++ [0]). now rewrite <- app_assoc.
Qed.

Lemma returns_spin l busy : busy 0 = false -> returns_within 1 (spin l busy).
Proof.
  intros Hb n s [p ->].
  destruct (spin_idle_word l busy p (repeat 0 n) Hb) as (t & q & E).
  exists t, tt, (q ++ repeat 0 n). split; [exact E | now exists q].
Qed.

Lemma returns_bind {A B} j k (m : M A) (f : A -> M B) :
  returns_within j m -> (forall a, returns_within k (f a)) ->
  returns_within (j + k) (bind m f).
Proof.
  intros Hm Hf n s Hq. unfold bind.
  destruct (Hm (k + n)%nat s) as (t & a & r & -> & Hr).
  { now rewrite Nat.add_assoc. }
  destruct (Hf a n r Hr) as (t2 & b & r2 & -> & Hr2). eauto.
Qed.

Lemma exits_bind {A B} j k (m : M A) (f : A -> M B) :
  returns_within j m -> (forall a, exits_within k (f a)) ->
  exits_within (j + k) (bind m f).
Proof.
  intros Hm Hf s Hq. unfold bind.
  destruct (Hm k s Hq) as (t & a & r & -> & Hr).
  destruct (Hf a r Hr) as (t2 & ->). eauto.
Qed.

Lemma exits_goto e : exits_within 0 (goto e).
Proof. intros s _. now exists [EvJump e]. Qed.

(** ** Inversion of runs *)

Lemma emit_ret_inv e s t a r : emit e s = (t, Ret a r) -> t = [e] /\ r = s.
Proof. intros H. inversion H. auto. Qed.

Lemma ret_ret_inv {A} (x : A) s t a r : ret x s = (t, Ret a r) -> t = [] /\ a = x /\ r = s.
Proof. intros H. inversion H. auto. Qed.

Lemma load32_ret_inv l s t a r :
  load32 l s = (t, Ret a r) ->
  exists x, s = x :: r /\ a = wrap32 x /\ t = [EvRead l (wrap32 x)].
Proof. destruct s as [|x s]; intros H; inversion H. eauto. Qed.

Lemma bind_ret_inv {A B} (m : M A) (f : A -> M B) s t b r :
  bind m f s = (t, Ret b r) ->
  exists t1 a r1 t2, m s = (t1, Ret a r1) /\ f a r1 = (t2, Ret b r) /\ t = t1 ++ t2.
Proof.
  unfold bind. destruct (m s) as [t1 [a r1| |]]; try discriminate.
  destruct (f a r1) as [t2 o] eqn:E. intros H. inversion H; subst. eauto 8.
Qed.

Create HintDb stays.
Create HintDb extends.

#[local] Hint Resolve stays_emit stays_store32 stays_load32 stays_spin stays_ret
  stays_bind : stays.
#[local] Hint Resolve extends_emit extends_ret extends_goto extends_load32
  extends_spin extends_bind : extends.

Ltac invert_run :=
  repeat match goal with
    | H : bind _ _ _ = (_, Exit) |- _ =>
        apply bind_exit in H;
        [ destruct H as (? & ? & ? & ? & ? & H & ->); cbv beta zeta in H
        | solve [unfold store32, si_wait, si_write, cop0_clear_cache, rcp_reset,
                 pif_terminate_boot; auto 10 with stays] ]
    | H : bind _ _ _ = (_, Ret _ _) |- _ =>
        apply bind_ret_inv in H; destruct H as (? & ? & ? & ? & ? & H & ->);
        cbv beta zeta in H
    | H : emit _ _ = (_, Ret _ _) |- _ =>
        apply emit_ret_inv in H; destruct H as [-> ->]
    | H : store32 _ _ _ = (_, Ret _ _) |- _ =>
        apply emit_ret_inv in H; destruct H as [-> ->]
    | H : ret _ _ = (_, Ret _ _) |- _ =>
        apply ret_ret_inv in H; destruct H as (-> & -> & ->)
    | H : load32 _ _ = (_, Ret _ _) |- _ =>
        apply load32_ret_inv in H; destruct H as (? & -> & -> & ->)
    | H : spin _ _ _ = (_, Ret _ _) |- _ =>
        apply spin_ret in H; destruct H as (? & -> & ? & ->)
    | H : goto _ _ = (_, Exit) |- _ =>
        unfold goto in H; inversion H; subst; clear H
    end.

(** * The runs of stage 3 *)

Lemma stage3_exit_inv reserved v entrypoint s t :
  stage3_body reserved v entrypoint s = (t, Exit) ->
  exists x F1 F2 B rest,
    s = x :: F1 ++ F2 ++ B ++ rest /\
    completes nonzero F1 = true /\ completes nonzero F2 = true /\
    completes nonzero B = true /\
    t = stage3_trace reserved v entrypoint x F1 F2 B.
Proof.
  intros H. unfold stage3_body in H. destruct v;
    unfold pif_terminate_boot, si_write, cop0_clear_cache, si_wait in H;
    invert_run.
  all: do 5 eexists; split; [reflexivity|]; repeat (split; [eassumption|]).
  all: unfold stage3_trace; simpl; rewrite <- ?app_assoc; simpl; reflexivity.
Qed.

Lemma stage3_exit_run reserved v entrypoint x F1 F2 B rest :
  completes nonzero F1 = true -> completes nonzero F2 = true ->
  completes nonzero B = true ->
  stage3_body reserved v entrypoint (x :: F1 ++ F2 ++ B ++ rest)
  = (stage3_trace reserved v entrypoint x F1 F2 B, Exit).
Proof.
  intros H1 H2 H3. unfold stage3_body, stage3_trace.
  destruct v; unfold bind; simpl;
    rewrite (spin_complete _ _ _ _ H1); simpl;
    rewrite (spin_complete _ _ _ _ H2); simpl;
    rewrite (spin_complete _ _ _ _ H3); simpl;
    rewrite <- ?app_assoc; reflexivity.
Qed.

Lemma nonzero_0 : nonzero 0 = false.
Proof. reflexivity. Qed.

Lemma stage3_extends reserved v entrypoint : extends (stage3_body reserved v entrypoint).
Proof.
  unfold stage3_body, pif_terminate_boot, si_write, cop0_clear_cache, si_wait, store32.
  destruct v; auto 30 with extends.
Qed.

Lemma stage3_exits reserved v entrypoint :
  exits_within 4 (stage3_body reserved v entrypoint).
Proof.
  pose proof (returns_spin SP_DMA_FULL nonzero nonzero_0) as HF.
  pose proof (returns_spin SP_DMA_BUSY nonzero nonzero_0) as HB.
  unfold stage3_body, pif_terminate_boot, si_write, cop0_clear_cache, si_wait, store32.
  destruct v.
  - apply (exits_bind 1 3).
    { apply (returns_bind 0 1); [apply returns_emit | intros; apply returns_load32]. }
    intros w. apply (exits_bind 0 3); [apply returns_emit|]. intros _.
    apply (exits_bind 1 2); [exact HF|]. intros _.
    apply (exits_bind 0 2); [apply returns_emit|]. intros _.
    apply (exits_bind 0 2); [apply returns_emit|]. intros _.
    apply (exits_bind 0 2); [apply returns_emit|]. intros _.
    apply (exits_bind 1 1); [exact HF|]. intros _.
    apply (exits_bind 0 1); [apply returns_emit|]. intros _.
    apply (exits_bind 0 1).
    { apply (returns_bind 0 0); [apply returns_emit|]. intros _.
      apply (returns_bind 0 0); [apply returns_emit|]. intros _. apply returns_emit. }
    intros _. apply (exits_bind 1 0); [exact HB|]. intros _.
    apply (exits_bind 0 0); [apply returns_emit|]. intros _. apply exits_goto.
  - apply (exits_bind 1 3); [apply returns_load32|].
    intros w. apply (exits_bind 0 3); [apply returns_emit|]. intros _.
    apply (exits_bind 1 2); [exact HF|]. intros _.
    apply (exits_bind 0 2); [apply returns_emit|]. intros _.
    apply (exits_bind 0 2); [apply returns_emit|]. intros _.
    apply (exits_bind 0 2); [apply returns_emit|]. intros _.
    apply (exits_bind 1 1); [exact HF|]. intros _.
    apply (exits_bind 0 1); [apply returns_emit|]. intros _.
    apply (exits_bind 0 1).
    { apply (returns_bind 0 0); [apply returns_emit|]. intros _. apply returns_emit. }
    intros _. apply (exits_bind 1 0); [exact HB|]. intros _.
    apply (exits_bind 0 0); [apply returns_ret|]. intros _. apply exits_goto.
Qed.

(** * The runs of stage 2 *)

Section Stage2Runs.
Variables DMA_BUSY IO_BUSY : Z.

Lemma stage2_exit_inv v script t :
  stage2 DMA_BUSY IO_BUSY v script = (t, Exit) ->
  exists e s P1 P2 x F1 F2 B rest,
    script = e :: s :: P1 ++ P2 ++ x :: F1 ++ F2 ++ B ++ rest /\
    completes (pi_busy DMA_BUSY IO_BUSY) P1 = true /\
    completes (pi_busy DMA_BUSY IO_BUSY) P2 = true /\
    completes nonzero F1 = true /\ completes nonzero F2 = true /\
    completes nonzero B = true /\
    t = stage2_trace v e s P1 P2 x F1 F2 B.
Proof.
  intros H. unfold stage2, io_read32, pi_read_async, pi_wait, rcp_reset in H.
  invert_run.
  match goal with H : stage3 _ _ _ = _ |- _ =>
    apply stage3_exit_inv in H;
    destruct H as (? & ? & ? & ? & ? & -> & ? & ? & ? & ->) end.
  do 9 eexists. split; [reflexivity|].
  repeat (split; [eassumption|]).
  unfold stage2_trace, read_header.
  rewrite wrap32_idem. change (wrap32 268439552) with 268439552.
  cbn [app]. rewrite <- ?app_assoc. reflexivity.
Qed.


Lemma pi_busy_0 : pi_busy DMA_BUSY IO_BUSY 0 = false.
Proof. reflexivity. Qed.

Lemma stage2_extends v : extends (stage2 DMA_BUSY IO_BUSY v).
Proof.
  unfold stage2, io_read32, pi_read_async, pi_wait, rcp_reset, store32.
  pose proof stage3_extends. unfold stage3. auto 30 with extends.
Qed.

Lemma stage2_exits v : exits_within 8 (stage2 DMA_BUSY IO_BUSY v).
Proof.
  pose proof (returns_spin PI_STATUS _ pi_busy_0) as HP.
  unfold stage2, io_read32, pi_read_async, pi_wait, rcp_reset, store32.
  apply (exits_bind 1 7); [apply returns_load32|]. intros e.
  apply (exits_bind 1 6); [apply returns_load32|]. intros s.
  apply (exits_bind 1 5).
  { apply (returns_bind 1 0); [exact HP|]. intros _.
    apply (returns_bind 0 0); [apply returns_emit|]. intros _.
    apply (returns_bind 0 0); [apply returns_emit|]. intros _. apply returns_emit. }
  intros _. apply (exits_bind 1 4); [exact HP|]. intros _.
  apply (exits_bind 0 4); [apply returns_emit|]. intros _.
  apply stage3_exits.
Qed.

(** Every run is an initial segment of a run that reaches the jump:
    the one on the same words followed by idle hardware. *)
Lemma stage2_completion v script :
  exists t, stage2 DMA_BUSY IO_BUSY v (script ++ repeat 0 8) = (t, Exit) /\
            prefix_of (trace_of (stage2 DMA_BUSY IO_BUSY v script)) t.
Proof.
  destruct (stage2_exits v (script ++ repeat 0 8)) as [t Ht]; [now exists script|].
  exists t. split; [exact Ht|].
  pose proof (extends_prefix (stage2 DMA_BUSY IO_BUSY v) script (repeat 0 8)
                (stage2_extends v)) as Hp.
  now rewrite Ht in Hp.
Qed.

End Stage2Runs.

Lemma stage3_completion reserved v entrypoint script :
  exists t, stage3_body reserved v entrypoint (script ++ repeat 0 4) = (t, Exit) /\
            prefix_of (trace_of (stage3_body reserved v entrypoint script)) t.
Proof.
  destruct (stage3_exits reserved v entrypoint (script ++ repeat 0 4)) as [t Ht];
    [now exists script|].
  exists t. split; [exact Ht|].
  pose proof (extends_prefix (stage3_body reserved v entrypoint) script (repeat 0 4)
                (stage3_extends reserved v entrypoint)) as Hp.
  now rewrite Ht in Hp.
Qed.

(** * What a complete run does, polling loads left out *)

Arguments wrap32 : simpl never.
Arguments sub32 : simpl never.
Arguments add32 : simpl never.
Arguments to_int : simpl never.
Arguments stage2_size : simpl never.

Lemma actions_stage3_trace reserved v entrypoint x F1 F2 B :
  actions (stage3_trace reserved v entrypoint x F1 F2 B)
  = stage3_actions reserved v entrypoint x.
Proof.
  unfold stage3_trace, stage3_actions.
  rewrite !actions_app, !actions_reads by reflexivity.
  destruct v; reflexivity.
Qed.

Lemma actions_stage2_trace v e s P1 P2 x F1 F2 B :
  actions (stage2_trace v e s P1 P2 x F1 F2 B) = stage2_actions v e s x.
Proof.
  unfold stage2_trace, stage2_actions.
  rewrite !actions_app, actions_stage3_trace, !actions_reads by reflexivity.
  reflexivity.
Qed.

(** An observer that is a left fold and skips the polling loads sees the
    same thing on a trace and on its actions. *)
Lemma fold_actions {S} (step : S -> event -> S) t st :
  (forall st e, is_poll e = true -> step st e = st) ->
  fold_left step t st = fold_left step (actions t) st.
Proof.
  intros Hskip. revert st. induction t as [|e t IH]; intros st; [reflexivity|].
  unfold actions in *. simpl. destruct (is_poll e) eqn:E; simpl.
  - rewrite (Hskip st e E). apply IH.
  - apply IH.
Qed.

Lemma filter_actions (f : event -> bool) t :
  (forall e, is_poll e = true -> f e = false) ->
  filter f t = filter f (actions t).
Proof.
  intros Hf. unfold actions. induction t as [|e t IH]; [reflexivity|]. simpl.
  destruct (is_poll e) eqn:E; simpl.
  - now rewrite (Hf e E).
  - now rewrite IH.
Qed.

Lemma to_int_wrap w : 0 <= w < 2 ^ 32 -> wrap32 (to_int w) = w.
Proof.
  intros H. unfold to_int, wrap32. destruct (w <? 2 ^ 31).
  - now apply Z.mod_small.
  - replace (w - 2 ^ 32) with (w + (-1) * 2 ^ 32) by ring.
    rewrite Z.mod_add by lia. now apply Z.mod_small.
Qed.

Lemma sub32_sub32 a b c : sub32 (sub32 a b) c = (a - b - c) mod 2 ^ 32.
Proof. unfold sub32, wrap32. now rewrite Zminus_mod_idemp_l. Qed.

Lemma stack_top_value w :
  0 <= w < 2 ^ 32 ->
  sub32 (add32 0x80000000 (wrap32 (to_int w))) 0x10 = (0x80000000 + w - 0x10) mod 2 ^ 32.
Proof.
  intros H. rewrite (to_int_wrap w H). unfold sub32, add32, wrap32.
  now rewrite Zminus_mod_idemp_l.
Qed.

Lemma reserved_base_value w reserved :
  0 <= w < 2 ^ 32 -> wrap32 (to_int w - reserved) = (w - reserved) mod 2 ^ 32.
Proof.
  intros H. unfold to_int, wrap32. destruct (w <? 2 ^ 31); [reflexivity|].
  replace (w - 2 ^ 32 - reserved) with (w - reserved + (-1) * 2 ^ 32) by ring.
  now rewrite Z.mod_add by lia.
Qed.

(** * Cartridge transfers *)

Lemma pi_transfers_actions t : forall d c,
  pi_transfers_from d c t = pi_transfers_from d c (actions t).
Proof.
  unfold actions. induction t as [|e t IH]; intros d c; [reflexivity|].
  destruct e as [l w|l w| | | | | |]; try destruct l; simpl; try rewrite IH; auto.
Qed.

Lemma pi_transfers_app p : forall q d c,
  exists d' c', pi_transfers_from d c (p ++ q)
                = pi_transfers_from d c p ++ pi_transfers_from d' c' q.
Proof.
  induction p as [|e p IH]; intros q d c; [now exists d, c|].
  destruct e as [l w|l w| | | | | |]; try destruct l; simpl;
    try (destruct (IH q d c) as (d' & c' & ->); now eauto).
  - destruct (IH q w c) as (d' & c' & ->); now eauto.
  - destruct (IH q d w) as (d' & c' & ->); now eauto.
Qed.

Lemma pi_transfers_prefix p t :
  prefix_of p t ->
  (List.length (pi_transfers p) <= List.length (pi_transfers t))%nat /\
  (forall x, In x (pi_transfers p) -> In x (pi_transfers t)).
Proof.
  intros [q ->]. unfold pi_transfers.
  destruct (pi_transfers_app p q 0 0) as (d' & c' & ->). split.
  - rewrite length_app. lia.
  - intros x Hx. apply in_or_app. now left.
Qed.

Lemma stage2_size_range e s :
  0 <= s < 2 ^ 32 -> 0 < stage2_size e s < 2 ^ 32.
Proof.
  intros H. unfold stage2_size.
  destruct (s =? 0) eqn:E0; simpl; [cbv; split; reflexivity|].
  apply Z.eqb_neq in E0.
  destruct (s >? _); [cbv; split; reflexivity | lia].
Qed.

Lemma pi_transfers_stage2_actions v e s x :
  pi_transfers (stage2_actions v e s x)
  = [ (wrap32 e, 0x10001000, stage2_size (wrap32 e) (wrap32 s)) ].
Proof.
  pose proof (stage2_size_range (wrap32 e) (wrap32 s) (wrap32_range s)) as Hr.
  assert (Hw : wrap32 (stage2_size (wrap32 e) (wrap32 s) - 1) + 1
               = stage2_size (wrap32 e) (wrap32 s)).
  { rewrite wrap32_small; lia. }
  unfold pi_transfers, stage2_actions, stage3_actions, read_header.
  destruct v; cbn; rewrite Hw; reflexivity.
Qed.

Section Transfers.
Variables DMA_BUSY IO_BUSY : Z.

(** The transfers of a run that reaches the jump. *)
Lemma stage2_exit_transfers v script t :
  stage2 DMA_BUSY IO_BUSY v script = (t, Exit) ->
  exists e s rest t',
    script = e :: s :: rest /\ t = read_header e s ++ t' /\
    pi_transfers t = [ (wrap32 e, 0x10001000, stage2_size (wrap32 e) (wrap32 s)) ].
Proof.
  intros H. apply stage2_exit_inv in H.
  destruct H as (e & s & P1 & P2 & x & F1 & F2 & B & rest & -> & _ & _ & _ & _ & _ & ->).
  exists e, s. eexists. eexists. split; [reflexivity|]. split.
  - unfold stage2_trace. reflexivity.
  - unfold pi_transfers. rewrite pi_transfers_actions, actions_stage2_trace.
    apply pi_transfers_stage2_actions.
Qed.

(** The transfers of any run, complete or not. *)
Lemma stage2_any_transfers v e s rest :
  let t := trace_of (stage2 DMA_BUSY IO_BUSY v (e :: s :: rest)) in
  (List.length (pi_transfers t) <= 1)%nat /\
  forall x, In x (pi_transfers t) ->
            x = (wrap32 e, 0x10001000, stage2_size (wrap32 e) (wrap32 s)).
Proof.
  intros t.
  destruct (stage2_completion DMA_BUSY IO_BUSY v (e :: s :: rest)) as (t1 & Ht1 & Hp).
  fold t in Hp. destruct (pi_transfers_prefix _ _ Hp) as [Hl Hi].
  apply stage2_exit_transfers in Ht1.
  destruct Ht1 as (e' & s' & rest' & t' & Hs & _ & Ht).
  simpl in Hs. inversion Hs; subst e' s'. rewrite Ht in Hl, Hi. split.
  - exact Hl.
  - intros x Hx. apply Hi in Hx. destruct Hx as [<-|[]]. reflexivity.
Qed.
End Transfers.

(** * Polls, word by word *)

Lemma completes_split busy vs :
  completes busy vs = true <->
  exists pre x, vs = pre ++ [x] /\
                forallb (fun y => busy (wrap32 y)) pre = true /\
                busy (wrap32 x) = false.
Proof.
  split.
  - induction vs as [|y vs IH]; simpl; [discriminate|].
    destruct (busy (wrap32 y)) eqn:Hb.
    + intros H. destruct (IH H) as (pre & x & -> & Hf & Hx).
      exists (y :: pre), x. simpl. rewrite Hb. auto.
    + destruct vs; [|discriminate]. intros _. exists [], y. auto.
  - intros (pre & x & -> & Hf & Hx). induction pre as [|y pre IH]; simpl.
    + now rewrite Hx.
    + simpl in Hf. apply andb_prop in Hf. destruct Hf as [Hy Hf].
      rewrite Hy. now apply IH.
Qed.

Lemma pi_busy_false DMA_BUSY IO_BUSY w :
  pi_busy DMA_BUSY IO_BUSY w = false <->
  Z.land w DMA_BUSY = 0 /\ Z.land w IO_BUSY = 0.
Proof.
  unfold pi_busy. rewrite negb_false_iff, Z.eqb_eq, Z.land_lor_distr_r.
  apply Z.lor_eq_0_iff.
Qed.

Lemma low_bits_range e : 0 <= Z.land e 0x1FFFFFFF <= 0x1FFFFFFF.
Proof.
  change 0x1FFFFFFF with (Z.ones 29) at 1 2. rewrite Z.land_ones by lia.
  pose proof (Z.mod_pos_bound e (2 ^ 29) ltac:(lia)). lia.
Qed.

Lemma max_size_value e :
  sub32 (sub32 (Z.shiftl 8 20) (Z.land e 0x1FFFFFFF)) TOTAL_RESERVED_SIZE
  = (8 * 1024 * 1024 - Z.land e 0x1FFFFFFF - TOTAL_RESERVED_SIZE) mod 2 ^ 32.
Proof. rewrite sub32_sub32. reflexivity. Qed.

Lemma stage2_size_cases e s :
  let max_size := (8 * 1024 * 1024 - Z.land e 0x1FFFFFFF - TOTAL_RESERVED_SIZE) mod 2 ^ 32 in
  (s = 0 \/ s > max_size -> stage2_size e s = 1 * 1024 * 1024) /\
  (~ (s = 0 \/ s > max_size) -> stage2_size e s = s).
Proof.
  intros max_size. unfold stage2_size. rewrite max_size_value. fold max_size.
  destruct (s =? 0) eqn:E0; [apply Z.eqb_eq in E0 | apply Z.eqb_neq in E0];
    destruct (s >? max_size) eqn:E1; simpl;
    rewrite ?Z.gtb_ltb, ?Z.ltb_lt, ?Z.ltb_ge in E1;
    (split; intros H; first [reflexivity | lia | exfalso; apply H; lia]).
Qed.

(** * Stage 2: size selection, the transfer and its primitive *)

(** C1: with header words [e] (entry address) and [s] (declared size),
    the length of the cartridge transfer started by stage 2 is the 1 MiB
    fallback when [s == 0] or [s > 8 MiB - (e & 0x1FFFFFFF) -
    TOTAL_RESERVED_SIZE], and [s] itself otherwise; the bound is the
    [uint32_t] value of that expression, which is the plain difference
    whenever the entry address leaves room for the reserved region. *)
Theorem stage2_effective_size :
  forall DMA_BUSY IO_BUSY v e s rest dram cart n,
    0 <= e < 2 ^ 32 -> 0 <= s < 2 ^ 32 ->
    In (dram, cart, n)
       (pi_transfers (trace_of (stage2 DMA_BUSY IO_BUSY v (e :: s :: rest)))) ->
    let max_size :=
      (8 * 1024 * 1024 - Z.land e 0x1FFFFFFF - TOTAL_RESERVED_SIZE) mod 2 ^ 32 in
    (s = 0 \/ s > max_size -> n = 1 * 1024 * 1024) /\
    (~ (s = 0 \/ s > max_size) -> n = s) /\
    (Z.land e 0x1FFFFFFF + TOTAL_RESERVED_SIZE <= 8 * 1024 * 1024 ->
     max_size = 8 * 1024 * 1024 - Z.land e 0x1FFFFFFF - TOTAL_RESERVED_SIZE).
Proof.
  intros DMA_BUSY IO_BUSY v e s rest dram cart n He Hs Hin max_size.
  destruct (stage2_any_transfers DMA_BUSY IO_BUSY v e s rest) as [_ Hx].
  apply Hx in Hin. rewrite (wrap32_small e He), (wrap32_small s Hs) in Hin.
  inversion Hin; subst. destruct (stage2_size_cases e s) as [H1 H2].
  split; [exact H1|]. split; [exact H2|].
  intros Hroom. unfold max_size. pose proof (low_bits_range e).
  apply Z.mod_small. unfold TOTAL_RESERVED_SIZE, LOADER_SIZE in *. lia.
Qed.

Lemma stage2_effective_size_witness :
  (0 = 0 \/ 0 > (8 * 1024 * 1024 - Z.land 0x80100000 0x1FFFFFFF - TOTAL_RESERVED_SIZE) mod 2 ^ 32 ->
   1048576 = 1 * 1024 * 1024) /\
  (~ (0 = 0 \/ 0 > (8 * 1024 * 1024 - Z.land 0x80100000 0x1FFFFFFF - TOTAL_RESERVED_SIZE) mod 2 ^ 32) ->
   1048576 = 0) /\
  (Z.land 0x80100000 0x1FFFFFFF + TOTAL_RESERVED_SIZE <= 8 * 1024 * 1024 ->
   (8 * 1024 * 1024 - Z.land 0x80100000 0x1FFFFFFF - TOTAL_RESERVED_SIZE) mod 2 ^ 32
   = 8 * 1024 * 1024 - Z.land 0x80100000 0x1FFFFFFF - TOTAL_RESERVED_SIZE).
Proof.
  apply (stage2_effective_size 1 2 Normal 0x80100000 0
           [0; 0; 0x800000; 0; 0; 0] 0x80100000 0x10001000 1048576).
  - split; [discriminate | reflexivity].
  - split; [discriminate | reflexivity].
  - vm_compute. left. reflexivity.
Defined.

(** C10, as stated, fails: with entry address 0x807F8002 the bound wraps
    to 0xFFFFFFFE, and the nonzero declared size 0xFFFFFFFF is above it,
    so the 1 MiB fallback replaces it. *)
Lemma wrapped_bound_counterexample :
  Z.land 0x807F8002 0x1FFFFFFF + TOTAL_RESERVED_SIZE > 8 * 1024 * 1024 /\
  0xFFFFFFFF <> 0 /\
  sub32 (sub32 (Z.shiftl 8 20) (Z.land 0x807F8002 0x1FFFFFFF)) TOTAL_RESERVED_SIZE
  = 0xFFFFFFFE /\
  stage2_size 0x807F8002 0xFFFFFFFF = 1 * 1024 * 1024 /\
  stage2_size 0x807F8002 0xFFFFFFFF <> 0xFFFFFFFF /\
  pi_transfers (trace_of (stage2 1 2 Compat
                            [0x807F8002; 0xFFFFFFFF; 0; 0; 0x800000; 0; 0; 0]))
  = [ (0x807F8002, 0x10001000, 1 * 1024 * 1024) ].
Proof. vm_compute. repeat split; discriminate. Qed.

(** C10, amended: when [(entry & 0x1FFFFFFF) + TOTAL_RESERVED_SIZE]
    exceeds 8 MiB the bound wraps to [2^32 + 8 MiB - (entry & 0x1FFFFFFF) -
    TOTAL_RESERVED_SIZE], at least 0xE07F8001, although no memory is
    available; every nonzero declared size up to that wrapped bound is
    kept unchanged, and only a size above it gets the 1 MiB fallback. *)
Theorem wrapped_bound_keeps_size :
  forall e s,
    0 <= e < 2 ^ 32 -> 0 <= s < 2 ^ 32 ->
    Z.land e 0x1FFFFFFF + TOTAL_RESERVED_SIZE > 8 * 1024 * 1024 ->
    let max_size :=
      sub32 (sub32 (Z.shiftl 8 20) (Z.land e 0x1FFFFFFF)) TOTAL_RESERVED_SIZE in
    max_size = 2 ^ 32 + 8 * 1024 * 1024 - Z.land e 0x1FFFFFFF - TOTAL_RESERVED_SIZE /\
    0xE07F8001 <= max_size < 2 ^ 32 /\
    8 * 1024 * 1024 - Z.land e 0x1FFFFFFF - TOTAL_RESERVED_SIZE < 0 /\
    (0 < s <= max_size -> stage2_size e s = s) /\
    (max_size < s -> stage2_size e s = 1 * 1024 * 1024).
Proof.
  intros e s He Hs Hover max_size.
  pose proof (low_bits_range e) as Hl.
  assert (Hm : max_size
               = 2 ^ 32 + 8 * 1024 * 1024 - Z.land e 0x1FFFFFFF - TOTAL_RESERVED_SIZE).
  { unfold max_size. rewrite max_size_value.
    replace (8 * 1024 * 1024 - Z.land e 0x1FFFFFFF - TOTAL_RESERVED_SIZE)
      with (2 ^ 32 + 8 * 1024 * 1024 - Z.land e 0x1FFFFFFF - TOTAL_RESERVED_SIZE
            + (-1) * 2 ^ 32) by ring.
    rewrite Z.mod_add by lia. apply Z.mod_small.
    unfold TOTAL_RESERVED_SIZE, LOADER_SIZE in *. lia. }
  destruct (stage2_size_cases e s) as [H1 H2].
  unfold max_size in Hm. rewrite max_size_value in Hm. rewrite Hm in H1, H2.
  split; [unfold max_size; rewrite max_size_value; exact Hm|].
  unfold max_size. rewrite max_size_value, Hm.
  unfold TOTAL_RESERVED_SIZE, LOADER_SIZE in *.
  split; [lia|]. split; [lia|]. split.
  - intros Hk. apply H2. lia.
  - intros Hk. apply H1. lia.
Qed.

Lemma wrapped_bound_keeps_size_witness :
  stage2_size 0x807F8002 0x12345678 = 0x12345678.
Proof.
  refine (proj1 (proj2 (proj2 (proj2
            (wrapped_bound_keeps_size 0x807F8002 0x12345678 _ _ _)))) _).
  - split; [discriminate | reflexivity].
  - split; [discriminate | reflexivity].
  - reflexivity.
  - split; [reflexivity | discriminate].
Defined.

(** C2: stage 2 starts exactly one cartridge transfer: no run starts more
    than one, idle hardware lets the run reach the jump, and a run that
    reaches the jump has read the entry address and the size at header
    offsets 0x10000008 and 0x10000010 and has started the single transfer
    to the entry address, from cartridge offset 0x10001000, of the
    effective size; a header with entry 0x80100000 and size 0 gives a
    transfer of 1*1024*1024 bytes. *)
Theorem stage2_single_transfer :
  forall DMA_BUSY IO_BUSY v script,
    (List.length (pi_transfers (trace_of (stage2 DMA_BUSY IO_BUSY v script))) <= 1)%nat /\
    exited (stage2 DMA_BUSY IO_BUSY v (script ++ repeat 0 8)) = true /\
    (forall t, stage2 DMA_BUSY IO_BUSY v script = (t, Exit) ->
       exists e s rest t',
         script = e :: s :: rest /\
         t = [ EvRead (Mem (Z.lor 0x10000008 0xA0000000)) (wrap32 e);
               EvRead (Mem (Z.lor 0x10000010 0xA0000000)) (wrap32 s) ] ++ t' /\
         pi_transfers t
         = [ (wrap32 e, 0x10001000, stage2_size (wrap32 e) (wrap32 s)) ]) /\
    (forall rest t,
       script = 0x80100000 :: 0 :: rest ->
       stage2 DMA_BUSY IO_BUSY v script = (t, Exit) ->
       pi_transfers t = [ (0x80100000, 0x10001000, 1 * 1024 * 1024) ]).
Proof.
  intros DMA_BUSY IO_BUSY v script.
  destruct (stage2_completion DMA_BUSY IO_BUSY v script) as (t1 & Ht1 & Hp).
  split; [|split; [|split]].
  - destruct (pi_transfers_prefix _ _ Hp) as [Hl _].
    apply stage2_exit_transfers in Ht1.
    destruct Ht1 as (e & s & rest & t' & _ & _ & Ht). now rewrite Ht in Hl.
  - unfold exited. now rewrite Ht1.
  - intros t Ht. apply stage2_exit_transfers in Ht. exact Ht.
  - intros rest t -> Ht. apply stage2_exit_transfers in Ht.
    destruct Ht as (e & s & rest' & t' & Hs & _ & ->).
    inversion Hs; subst. reflexivity.
Qed.

Lemma stage2_single_transfer_witness :
  pi_transfers
    (trace_of (stage2 1 2 Normal [0x80100000; 0; 3; 0; 1; 0; 0x800000; 0; 0; 0]))
  = [ (0x80100000, 0x10001000, 1 * 1024 * 1024) ].
Proof.
  apply (proj2 (proj2 (proj2
           (stage2_single_transfer 1 2 Normal
              [0x80100000; 0; 3; 0; 1; 0; 0x800000; 0; 0; 0])))
           [3; 0; 1; 0; 0x800000; 0; 0; 0]).
  - reflexivity.
  - vm_compute. reflexivity.
Defined.

(** C9: [pi_read_async(dram_addr, cart_addr, len)] polls [PI_STATUS]
    until a word shows neither the DMA-busy nor the IO-busy bit, then
    stores the RAM address, the cartridge address and [len - 1] (as a
    [uint32_t]) to the three registers, in that order, and returns at
    once: no load follows the stores, and the rest of the script is left
    for the caller.  While every word polled is busy nothing is stored. *)
Theorem pi_read_async_behaviour :
  forall DMA_BUSY IO_BUSY dram_addr cart_addr len script,
    (forall pre x rest,
       script = pre ++ x :: rest ->
       forallb (fun y => pi_busy DMA_BUSY IO_BUSY (wrap32 y)) pre = true ->
       Z.land (wrap32 x) DMA_BUSY = 0 -> Z.land (wrap32 x) IO_BUSY = 0 ->
       pi_read_async DMA_BUSY IO_BUSY dram_addr cart_addr len script
       = (reads PI_STATUS (pre ++ [x])
          ++ [ EvWrite PI_DRAM_ADDR (wrap32 dram_addr);
               EvWrite PI_CART_ADDR (wrap32 cart_addr);
               EvWrite PI_WR_LEN (wrap32 (len - 1)) ],
          Ret tt rest)) /\
    (forall t u rest,
       pi_read_async DMA_BUSY IO_BUSY dram_addr cart_addr len script = (t, Ret u rest) ->
       exists pre x,
         script = pre ++ x :: rest /\
         forallb (fun y => pi_busy DMA_BUSY IO_BUSY (wrap32 y)) pre = true /\
         Z.land (wrap32 x) DMA_BUSY = 0 /\ Z.land (wrap32 x) IO_BUSY = 0 /\
         t = reads PI_STATUS (pre ++ [x])
             ++ [ EvWrite PI_DRAM_ADDR (wrap32 dram_addr);
                  EvWrite PI_CART_ADDR (wrap32 cart_addr);
                  EvWrite PI_WR_LEN (wrap32 (len - 1)) ]) /\
    (forall t,
       pi_read_async DMA_BUSY IO_BUSY dram_addr cart_addr len script = (t, Starve) ->
       forallb (fun y => pi_busy DMA_BUSY IO_BUSY (wrap32 y)) script = true /\
       t = reads PI_STATUS script) /\
    (forall t,
       pi_read_async DMA_BUSY IO_BUSY dram_addr cart_addr len script <> (t, Exit)) /\
    (0 < len <= 2 ^ 32 -> wrap32 (len - 1) = len - 1).
Proof.
  intros DMA_BUSY IO_BUSY dram_addr cart_addr len script.
  split; [|split; [|split; [|split]]].
  - intros pre x rest -> Hpre Hd Hi.
    assert (Hc : completes (pi_busy DMA_BUSY IO_BUSY) (pre ++ [x]) = true).
    { apply completes_split. exists pre, x. split; [reflexivity|]. split; [exact Hpre|].
      now apply pi_busy_false. }
    cbv beta iota zeta delta [pi_read_async bind store32 emit].
    replace (pre ++ x :: rest) with ((pre ++ [x]) ++ rest)
      by (now rewrite <- app_assoc).
    rewrite (spin_complete _ _ _ _ Hc). reflexivity.
  - intros t u rest H. unfold pi_read_async in H. invert_run.
    match goal with Hc : completes _ _ = true |- _ =>
      apply completes_split in Hc; destruct Hc as (pre & y & -> & Hpre & Hy) end.
    apply pi_busy_false in Hy. destruct Hy as [Hd Hi].
    exists pre, y. rewrite <- app_assoc. repeat (split; [easy|]). reflexivity.
  - intros t H.
    cbv beta iota zeta delta [pi_read_async bind store32 emit] in H.
    destruct (spin PI_STATUS (pi_busy DMA_BUSY IO_BUSY) script) as [t1 [a r| |]] eqn:E;
      inversion H; subst.
    now apply spin_starve in E.
  - intros t H.
    cbv beta iota zeta delta [pi_read_async bind store32 emit] in H.
    destruct (spin PI_STATUS (pi_busy DMA_BUSY IO_BUSY) script) as [t1 [a r| |]] eqn:E;
      inversion H; subst.
    now apply spin_no_exit in E.
  - intros H. apply wrap32_small. lia.
Qed.

Lemma pi_read_async_behaviour_witness :
  pi_read_async 1 2 0x80100000 0x10001000 0x100000 [3; 1; 2; 0; 7]
  = ([ EvRead PI_STATUS 3; EvRead PI_STATUS 1; EvRead PI_STATUS 2; EvRead PI_STATUS 0;
       EvWrite PI_DRAM_ADDR 0x80100000; EvWrite PI_CART_ADDR 0x10001000;
       EvWrite PI_WR_LEN 0xFFFFF ],
     Ret tt [7]).
Proof.
  apply (proj1 (pi_read_async_behaviour 1 2 0x80100000 0x10001000 0x100000
                  [3; 1; 2; 0; 7]) [3; 1; 2] 0 [7]); reflexivity.
Defined.

(** * Coprocessor transfers *)

Lemma sp_transfers_actions t : forall r d,
  sp_transfers_from r d t = sp_transfers_from r d (actions t).
Proof.
  unfold actions. induction t as [|e t IH]; intros r d; [reflexivity|].
  destruct e as [l w|l w| | | | | |]; try destruct l; simpl; try rewrite IH; auto.
Qed.

Lemma stage3_exit_actions reserved v entrypoint script t :
  stage3_body reserved v entrypoint script = (t, Exit) ->
  exists x rest t0,
    script = x :: rest /\
    actions t = stage3_actions reserved v entrypoint x /\
    t = t0 ++ handoff v entrypoint (wrap32 x).
Proof.
  intros H. apply stage3_exit_inv in H.
  destruct H as (x & F1 & F2 & B & rest & -> & _ & _ & _ & ->).
  exists x. eexists.
  exists (read_memsize v x ++ [EvCacheReset] ++ reads SP_DMA_FULL F1
          ++ clear_reserved reserved (wrap32 x) ++ reads SP_DMA_FULL F2
          ++ clear_dmem v ++ reads SP_DMA_BUSY B).
  split; [reflexivity|]. split; [apply actions_stage3_trace|].
  unfold stage3_trace. now rewrite <- !app_assoc.
Qed.

Lemma len_word_value k :
  0 <= k -> Z.lor (Z.shiftl k 12) 1023 = k * 4096 + 1023.
Proof.
  intros Hk. rewrite Z.shiftl_mul_pow2 by lia. change (2 ^ 12) with 4096.
  assert (H0 : Z.land (k * 4096) 1023 = 0).
  { change 1023 with (Z.ones 10). rewrite Z.land_ones by lia.
    replace (k * 4096) with (k * 4 * 2 ^ 10) by (change (2 ^ 10) with 1024; ring).
    apply Z.mod_mul. lia. }
  pose proof (Z.add_lor_land (k * 4096) 1023) as H. rewrite H0 in H. lia.
Qed.

Lemma reserved_len_word_decodes reserved :
  Z.rem reserved 1024 = 0 -> 1024 <= reserved <= 256 * 1024 ->
  sp_len_blocks (reserved_len_word reserved) = reserved / 1024 - 1 /\
  sp_len_remainder (reserved_len_word reserved) = 1024 - 1 /\
  sp_len_bytes (reserved_len_word reserved) = reserved.
Proof.
  intros Hrem Hr.
  assert (Hk : reserved = 1024 * (reserved / 1024)).
  { rewrite Z.rem_mod_nonneg in Hrem by lia.
    pose proof (Z.div_mod reserved 1024 ltac:(lia)). lia. }
  set (k := reserved / 1024) in *.
  assert (Hkr : 1 <= k <= 256) by lia.
  assert (Hb : sp_len_blocks (reserved_len_word reserved) = k - 1).
  { unfold sp_len_blocks, reserved_len_word. fold k. change (1024 - 1) with 1023.
    rewrite len_word_value by lia. rewrite Z.shiftr_div_pow2 by lia.
    change (2 ^ 12) with 4096.
    replace (((k - 1) * 4096 + 1023) / 4096) with (k - 1)
      by (apply Z.div_unique with 1023; lia).
    change 255 with (Z.ones 8). rewrite Z.land_ones by lia.
    apply Z.mod_small. change (2 ^ 8) with 256. lia. }
  assert (Hm : sp_len_remainder (reserved_len_word reserved) = 1023).
  { unfold sp_len_remainder, reserved_len_word. fold k. change (1024 - 1) with 1023.
    rewrite len_word_value by lia.
    change 4095 with (Z.ones 12). rewrite Z.land_ones by lia.
    change (2 ^ 12) with 4096.
    symmetry. apply Z.mod_unique with (k - 1); lia. }
  split; [exact Hb|]. split; [exact Hm|].
  unfold sp_len_bytes. rewrite Hb, Hm. lia.
Qed.

Lemma sp_transfers_stage3_actions v entrypoint x :
  sp_transfers (stage3_actions TOTAL_RESERVED_SIZE v entrypoint x)
  = [ (ToRdram, 0xA4001000, (wrap32 x - TOTAL_RESERVED_SIZE) mod 2 ^ 32,
       reserved_len_word TOTAL_RESERVED_SIZE);
      match v with
      | Normal => (ToSpmem, 0xA4000010, 0x00802000, 4096 - 16 - 1)
      | Compat => (ToSpmem, 0xA4000000, 0x00802000, 4096 - 1)
      end ].
Proof.
  rewrite <- (reserved_base_value (wrap32 x) TOTAL_RESERVED_SIZE (wrap32_range x)).
  destruct v; reflexivity.
Qed.

Lemma stage3_outcome reserved v entrypoint script :
  snd (stage3_body reserved v entrypoint script) = Starve \/
  snd (stage3_body reserved v entrypoint script) = Exit.
Proof.
  destruct (stage3_body reserved v entrypoint script) as [t [[] r| |]]; auto.
Qed.

(** Whether a run reaches the jump does not depend on the reserved size. *)
Lemma stage3_outcome_independent reserved reserved' v entrypoint script :
  snd (stage3_body reserved v entrypoint script)
  = snd (stage3_body reserved' v entrypoint script).
Proof.
  assert (Hexit : forall r1 r2,
             snd (stage3_body r1 v entrypoint script) = Exit ->
             snd (stage3_body r2 v entrypoint script) = Exit).
  { intros r1 r2 H.
    destruct (stage3_body r1 v entrypoint script) as [t o] eqn:E.
    simpl in H. subst o. apply stage3_exit_inv in E.
    destruct E as (x & F1 & F2 & B & rest & -> & H1 & H2 & H3 & _).
    now rewrite (stage3_exit_run r2 v entrypoint x F1 F2 B rest H1 H2 H3). }
  destruct (stage3_outcome reserved v entrypoint script) as [H|H];
    destruct (stage3_outcome reserved' v entrypoint script) as [H'|H'];
    try congruence.
  - apply (Hexit reserved' reserved) in H'. congruence.
  - apply (Hexit reserved reserved') in H. congruence.
Qed.

(** * Stage 3: the reserved region, the mailbox, the stack *)

(** C6: [TOTAL_RESERVED_SIZE] is a multiple of 1024 and the build checks
    it: the unit is built for the value of loader.h, every value that is
    not a multiple of 1024 is refused by the static assertion, and no run
    depends on that value for its control flow (there is no check at run
    time).  The first coprocessor transfer of a run that reaches the jump
    goes to RAM address [memsize - TOTAL_RESERVED_SIZE] with length word
    [((TOTAL_RESERVED_SIZE/1024 - 1) << 12) | (1024 - 1)]: blocks field
    [TOTAL_RESERVED_SIZE/1024 - 1], remainder field [1024 - 1], that is
    exactly [TOTAL_RESERVED_SIZE] bytes, and likewise for every multiple
    of 1024 the block field can hold. *)
Theorem reserved_clear_descriptor :
  Z.rem TOTAL_RESERVED_SIZE 1024 = 0 /\
  compile_cleanup TOTAL_RESERVED_SIZE = Built stage3 /\
  (forall reserved,
     Z.rem reserved 1024 <> 0 ->
     compile_cleanup reserved
     = BuildError "TOTAL_RESERVED_SIZE must be multiple of 1024") /\
  (forall reserved reserved' v entrypoint script,
     snd (stage3_body reserved v entrypoint script)
     = snd (stage3_body reserved' v entrypoint script)) /\
  (forall v entrypoint script t,
     stage3 v entrypoint script = (t, Exit) ->
     exists x rest second,
       script = x :: rest /\
       sp_transfers t
       = [ (ToRdram, 0xA4001000, (wrap32 x - TOTAL_RESERVED_SIZE) mod 2 ^ 32,
            Z.lor (Z.shiftl (TOTAL_RESERVED_SIZE / 1024 - 1) 12) (1024 - 1));
           second ] /\
       (TOTAL_RESERVED_SIZE <= wrap32 x ->
        (wrap32 x - TOTAL_RESERVED_SIZE) mod 2 ^ 32 = wrap32 x - TOTAL_RESERVED_SIZE)) /\
  (let w := Z.lor (Z.shiftl (TOTAL_RESERVED_SIZE / 1024 - 1) 12) (1024 - 1) in
   sp_len_blocks w = TOTAL_RESERVED_SIZE / 1024 - 1 /\
   sp_len_remainder w = 1024 - 1 /\
   sp_len_bytes w = TOTAL_RESERVED_SIZE /\
   sp_len_blocks w * 1024 + (sp_len_remainder w + 1) = TOTAL_RESERVED_SIZE) /\
  (forall reserved,
     Z.rem reserved 1024 = 0 -> 1024 <= reserved <= 256 * 1024 ->
     sp_len_bytes (Z.lor (Z.shiftl (reserved / 1024 - 1) 12) (1024 - 1)) = reserved).
Proof.
  split; [reflexivity|]. split; [reflexivity|]. split; [|split; [|split; [|split]]].
  - intros reserved H. unfold compile_cleanup, static_assert_reserved.
    apply Z.eqb_neq in H. now rewrite H.
  - apply stage3_outcome_independent.
  - intros v entrypoint script t H. apply stage3_exit_actions in H.
    destruct H as (x & rest & t0 & -> & Ha & _).
    exists x, rest. eexists. split; [reflexivity|]. split.
    + unfold sp_transfers. rewrite sp_transfers_actions, Ha.
      apply sp_transfers_stage3_actions.
    + intros Hle. apply Z.mod_small. pose proof (wrap32_range x).
      unfold TOTAL_RESERVED_SIZE, LOADER_SIZE in *. lia.
  - vm_compute. repeat split; reflexivity.
  - intros reserved Hrem Hr.
    apply (reserved_len_word_decodes reserved Hrem Hr).
Qed.

Lemma reserved_clear_descriptor_witness :
  exists x rest second,
    [0x800000; 1; 0; 0; 5; 0] = x :: rest /\
    sp_transfers (trace_of (stage3 Normal 0x80000400 [0x800000; 1; 0; 0; 5; 0]))
    = [ (ToRdram, 0xA4001000, (wrap32 x - TOTAL_RESERVED_SIZE) mod 2 ^ 32,
         Z.lor (Z.shiftl (TOTAL_RESERVED_SIZE / 1024 - 1) 12) (1024 - 1));
        second ] /\
    (TOTAL_RESERVED_SIZE <= wrap32 x ->
     (wrap32 x - TOTAL_RESERVED_SIZE) mod 2 ^ 32 = wrap32 x - TOTAL_RESERVED_SIZE).
Proof.
  apply (proj1 (proj2 (proj2 (proj2 (proj2 reserved_clear_descriptor))))
           Normal 0x80000400 [0x800000; 1; 0; 0; 5; 0]).
  vm_compute. reflexivity.
Defined.

(** ** Filters and initial segments *)

Lemma filter_prefix (f : event -> bool) p t :
  prefix_of p t -> prefix_of (filter f p) (filter f t).
Proof. intros [q ->]. exists (filter f q). apply filter_app. Qed.

Lemma prefix_of_nil_inv {A} (p : list A) : prefix_of p [] -> p = [].
Proof. intros [q H]. symmetry in H. now apply app_eq_nil in H. Qed.

Lemma stage2_exit_actions DMA_BUSY IO_BUSY v script t :
  stage2 DMA_BUSY IO_BUSY v script = (t, Exit) ->
  exists e s x rest, script = e :: s :: rest /\ actions t = stage2_actions v e s x.
Proof.
  intros H. apply stage2_exit_inv in H.
  destruct H as (e & s & P1 & P2 & x & F1 & F2 & B & rest & -> & _ & _ & _ & _ & _ & ->).
  exists e, s, x. eexists. split; [reflexivity|]. apply actions_stage2_trace.
Qed.

(** C7: in the normal variant a run of stage 3 that reaches the jump has
    called [si_write(0x7FC, 0x8)] exactly once, then [si_wait()], then
    jumped, so that no completion signal is pending at the hand-off; every
    run is an initial segment of such a run, and idle hardware lets it
    reach the jump.  The compatibility variant never calls [si_write] (nor
    [si_wait]), neither in stage 3 nor in the whole loader. *)
Theorem boot_complete_notification :
  forall entrypoint script,
    exited (stage3 Normal entrypoint (script ++ repeat 0 4)) = true /\
    prefix_of (filter is_si_or_jump (trace_of (stage3 Normal entrypoint script)))
              [EvSiWrite 0x7FC 0x8; EvSiWait; EvJump entrypoint] /\
    (forall t,
       stage3 Normal entrypoint script = (t, Exit) ->
       filter is_si_or_jump t = [EvSiWrite 0x7FC 0x8; EvSiWait; EvJump entrypoint] /\
       filter is_si_write t = [EvSiWrite 0x7FC 0x8] /\
       si_signal_pending t = false) /\
    filter is_si (trace_of (stage3 Compat entrypoint script)) = [] /\
    (forall DMA_BUSY IO_BUSY,
       filter is_si (trace_of (stage2 DMA_BUSY IO_BUSY Compat script)) = []).
Proof.
  intros entrypoint script.
  assert (Hfull : forall s t,
            stage3 Normal entrypoint s = (t, Exit) ->
            filter is_si_or_jump t = [EvSiWrite 0x7FC 0x8; EvSiWait; EvJump entrypoint] /\
            filter is_si_write t = [EvSiWrite 0x7FC 0x8] /\
            si_signal_pending t = false).
  { intros s t H. apply stage3_exit_actions in H.
    destruct H as (x & rest & t0 & -> & Ha & _).
    rewrite (filter_actions is_si_or_jump), (filter_actions is_si_write), Ha
      by (intros [[]| | | | | | |]; simpl; congruence).
    unfold si_signal_pending. rewrite fold_actions, Ha
      by (intros st [[]| | | | | | |]; simpl; congruence).
    repeat split; reflexivity. }
  destruct (stage3_completion TOTAL_RESERVED_SIZE Normal entrypoint script)
    as (t1 & Ht1 & Hp1).
  destruct (stage3_completion TOTAL_RESERVED_SIZE Compat entrypoint script)
    as (t2 & Ht2 & Hp2).
  fold (stage3 Normal entrypoint) in Ht1, Hp1.
  fold (stage3 Compat entrypoint) in Ht2, Hp2.
  split; [unfold exited; now rewrite Ht1|].
  split.
  { destruct (Hfull _ _ Ht1) as [<- _]. now apply filter_prefix. }
  split; [apply Hfull|].
  split.
  - apply (filter_prefix is_si) in Hp2.
    apply stage3_exit_actions in Ht2. destruct Ht2 as (x & rest & t0 & _ & Ha & _).
    rewrite (filter_actions is_si t2), Ha in Hp2
      by (intros [[]| | | | | | |]; simpl; congruence).
    now apply prefix_of_nil_inv.
  - intros DMA_BUSY IO_BUSY.
    destruct (stage2_completion DMA_BUSY IO_BUSY Compat script) as (t3 & Ht3 & Hp3).
    apply (filter_prefix is_si) in Hp3.
    apply stage2_exit_actions in Ht3. destruct Ht3 as (e & s & x & rest & _ & Ha).
    rewrite (filter_actions is_si t3), Ha in Hp3
      by (intros [[]| | | | | | |]; simpl; congruence).
    now apply prefix_of_nil_inv.
Qed.

Lemma boot_complete_notification_witness :
  filter is_si_or_jump (trace_of (stage3 Normal 0x80000400 [0x800000; 1; 0; 0; 5; 0]))
  = [EvSiWrite 0x7FC 0x8; EvSiWait; EvJump 0x80000400] /\
  filter is_si_write (trace_of (stage3 Normal 0x80000400 [0x800000; 1; 0; 0; 5; 0]))
  = [EvSiWrite 0x7FC 0x8] /\
  si_signal_pending (trace_of (stage3 Normal 0x80000400 [0x800000; 1; 0; 0; 5; 0]))
  = false.
Proof.
  apply (proj1 (proj2 (proj2
           (boot_complete_notification 0x80000400 [0x800000; 1; 0; 0; 5; 0])))).
  vm_compute. reflexivity.
Defined.

(** C8: in the normal variant a run of stage 3 that reaches the jump has
    read the memory size from the boot-flags word at 0xA4000000 and sets
    the stack pointer once, right before the jump, to
    [0x80000000 + memsize - 0x10] as a [uint32_t], whatever the entry
    point; that is the plain sum for every memory size below 0x80000010,
    and 0x807FFFF0 for memsize = 8 MiB and entry point 0x80000400.  Idle
    hardware lets the run reach the jump. *)
Theorem stack_pointer_below_top :
  forall entrypoint script,
    exited (stage3 Normal entrypoint (script ++ repeat 0 4)) = true /\
    (forall t,
       stage3 Normal entrypoint script = (t, Exit) ->
       exists memsize t0,
         filter is_mem_read t = [EvRead (Mem 0xA4000000) memsize] /\
         0 <= memsize < 2 ^ 32 /\
         filter is_sp_or_jump t
         = [ EvSetSP ((0x80000000 + memsize - 0x10) mod 2 ^ 32); EvJump entrypoint ] /\
         t = t0 ++ [ EvSetSP ((0x80000000 + memsize - 0x10) mod 2 ^ 32);
                     EvJump entrypoint ] /\
         (memsize < 0x80000010 ->
          (0x80000000 + memsize - 0x10) mod 2 ^ 32 = 0x80000000 + memsize - 0x10)) /\
    (forall rest t,
       script = 8 * 1024 * 1024 :: rest -> entrypoint = 0x80000400 ->
       stage3 Normal entrypoint script = (t, Exit) ->
       filter is_sp_or_jump t
       = [ EvSetSP (0x80000000 + 8 * 1024 * 1024 - 0x10); EvJump 0x80000400 ]).
Proof.
  intros entrypoint script.
  assert (Hfull : forall t,
            stage3 Normal entrypoint script = (t, Exit) ->
            exists x rest t0,
              script = x :: rest /\
              filter is_mem_read t = [EvRead (Mem 0xA4000000) (wrap32 x)] /\
              filter is_sp_or_jump t
              = [ EvSetSP ((0x80000000 + wrap32 x - 0x10) mod 2 ^ 32);
                  EvJump entrypoint ] /\
              t = t0 ++ [ EvSetSP ((0x80000000 + wrap32 x - 0x10) mod 2 ^ 32);
                          EvJump entrypoint ]).
  { intros t H. apply stage3_exit_actions in H.
    destruct H as (x & rest & t0 & -> & Ha & Ht).
    exists x, rest, t0. split; [reflexivity|].
    rewrite (filter_actions is_mem_read), (filter_actions is_sp_or_jump), Ha
      by (intros [[]| | | | | | |]; simpl; congruence).
    rewrite <- (stack_top_value (wrap32 x) (wrap32_range x)).
    repeat split; try reflexivity. exact Ht. }
  split; [|split].
  - destruct (stage3_completion TOTAL_RESERVED_SIZE Normal entrypoint script)
      as (t1 & Ht1 & _).
    fold (stage3 Normal entrypoint) in Ht1. unfold exited. now rewrite Ht1.
  - intros t H. destruct (Hfull t H) as (x & rest & t0 & _ & Hm & Hs & Ht).
    exists (wrap32 x), t0. split; [exact Hm|]. split; [apply wrap32_range|].
    split; [exact Hs|]. split; [exact Ht|].
    intros Hlt. apply Z.mod_small. pose proof (wrap32_range x). lia.
  - intros rest t -> -> H. destruct (Hfull t H) as (x & rest' & t0 & Hx & _ & Hs & _).
    inversion Hx; subst. exact Hs.
Qed.

Lemma stack_pointer_below_top_witness :
  filter is_sp_or_jump
    (trace_of (stage3 Normal 0x80000400 [8 * 1024 * 1024; 1; 0; 0; 5; 0]))
  = [ EvSetSP (0x80000000 + 8 * 1024 * 1024 - 0x10); EvJump 0x80000400 ].
Proof.
  apply (proj2 (proj2
           (stack_pointer_below_top 0x80000400 [8 * 1024 * 1024; 1; 0; 0; 5; 0]))
           [1; 0; 0; 5; 0]).
  - reflexivity.
  - reflexivity.
  - vm_compute. reflexivity.
Defined.

(** * The order of the operations *)

Lemma milestones_actions t : forall r d,
  milestones_from r d t = milestones_from r d (actions t).
Proof.
  unfold actions. induction t as [|e t IH]; intros r d; [reflexivity|].
  destruct e as [l w|l w| | | | | |]; try destruct l; simpl; try rewrite IH; auto.
Qed.

Lemma milestones_app p : forall q r d,
  exists r' d', milestones_from r d (p ++ q)
                = milestones_from r d p ++ milestones_from r' d' q.
Proof.
  induction p as [|e p IH]; intros q r d; [now exists r, d|].
  destruct e as [l w|l w| | | | | |]; try destruct l; simpl;
    try (destruct (IH q r d) as (r' & d' & ->); now eauto).
  - destruct (IH q w d) as (r' & d' & ->); now eauto.
  - destruct (IH q r w) as (r' & d' & ->); now eauto.
Qed.

Lemma milestones_prefix p t :
  prefix_of p t -> prefix_of (milestones p) (milestones t).
Proof.
  intros [q ->]. unfold milestones.
  destruct (milestones_app p q 0 0) as (r' & d' & ->). apply prefix_of_app_r.
Qed.

Lemma milestones_stage2_actions v e s x :
  milestones (stage2_actions v e s x) = sequence_of v (wrap32 x).
Proof.
  destruct v; unfold sequence_of, normal_sequence, compat_sequence;
    rewrite <- (reserved_base_value (wrap32 x) TOTAL_RESERVED_SIZE (wrap32_range x));
    reflexivity.
Qed.

(** C5: a run of the loader that reaches the jump performs, in this order
    and each once: load, cache reset, clear of the reserved RAM region,
    clear of the scratch memory from offset 16 on, drain of the
    supervisory signal, stack set-up, jump (normal variant); load, cache
    reset, clear of the reserved RAM region, clear of the whole scratch
    memory, jump (compatibility variant: no drain, no stack set-up).
    Every run is an initial segment of such a run, and idle hardware lets
    it reach the jump. *)
Theorem boot_sequence_order :
  forall DMA_BUSY IO_BUSY v script,
    exited (stage2 DMA_BUSY IO_BUSY v (script ++ repeat 0 8)) = true /\
    (exists memsize,
       prefix_of (milestones (trace_of (stage2 DMA_BUSY IO_BUSY v script)))
                 (sequence_of v memsize)) /\
    (forall t,
       stage2 DMA_BUSY IO_BUSY v script = (t, Exit) ->
       exists memsize,
         In (EvRead (Mem match v with Normal => 0xA4000000 | Compat => 0x80000318 end)
                    memsize) t /\
         milestones t
         = match v with
           | Normal =>
               [ OpLoad; OpCacheReset;
                 OpClearRam ((memsize - TOTAL_RESERVED_SIZE) mod 2 ^ 32)
                            TOTAL_RESERVED_SIZE;
                 OpClearScratch 16 (4096 - 16); OpDrain; OpSetStack; OpJump ]
           | Compat =>
               [ OpLoad; OpCacheReset;
                 OpClearRam ((memsize - TOTAL_RESERVED_SIZE) mod 2 ^ 32)
                            TOTAL_RESERVED_SIZE;
                 OpClearScratch 0 4096; OpJump ]
           end).
Proof.
  intros DMA_BUSY IO_BUSY v script.
  assert (Hfull : forall s t,
            stage2 DMA_BUSY IO_BUSY v s = (t, Exit) ->
            exists x,
              In (EvRead (Mem match v with Normal => 0xA4000000 | Compat => 0x80000318 end)
                         (wrap32 x)) t /\
              milestones t = sequence_of v (wrap32 x)).
  { intros s t H. apply stage2_exit_inv in H.
    destruct H as (e & s0 & P1 & P2 & x & F1 & F2 & B & rest & _ & _ & _ & _ & _ & _ & ->).
    exists x. split.
    - unfold stage2_trace, stage3_trace, read_memsize.
      do 5 (apply in_or_app; right). apply in_or_app. left.
      destruct v; simpl; auto.
    - unfold milestones. rewrite milestones_actions, actions_stage2_trace.
      apply milestones_stage2_actions. }
  destruct (stage2_completion DMA_BUSY IO_BUSY v script) as (t1 & Ht1 & Hp).
  split; [unfold exited; now rewrite Ht1|]. split.
  - destruct (Hfull _ _ Ht1) as (x & _ & Hm). exists (wrap32 x).
    rewrite <- Hm. now apply milestones_prefix.
  - intros t H. destruct (Hfull _ _ H) as (x & Hin & Hm). exists (wrap32 x).
    split; [exact Hin|]. rewrite Hm. destruct v; reflexivity.
Qed.

Lemma boot_sequence_order_witness :
  exists memsize,
    In (EvRead (Mem 0xA4000000) memsize)
       (trace_of (stage2 1 2 Normal [0x80000400; 0x2000; 3; 0; 1; 0; 0x800000; 1; 0; 0; 5; 0])) /\
    milestones
      (trace_of (stage2 1 2 Normal [0x80000400; 0x2000; 3; 0; 1; 0; 0x800000; 1; 0; 0; 5; 0]))
    = [ OpLoad; OpCacheReset;
        OpClearRam ((memsize - TOTAL_RESERVED_SIZE) mod 2 ^ 32) TOTAL_RESERVED_SIZE;
        OpClearScratch 16 (4096 - 16); OpDrain; OpSetStack; OpJump ].
Proof.
  apply (proj2 (proj2
           (boot_sequence_order 1 2 Normal
              [0x80000400; 0x2000; 3; 0; 1; 0; 0x800000; 1; 0; 0; 5; 0]))).
  vm_compute. reflexivity.
Defined.

(** * Polling discipline *)

Section DisciplineFacts.
Variables DMA_BUSY IO_BUSY : Z.
Variable p : policy.

Lemma watch_step_stuck st e :
  ok st = false -> ok (watch_step DMA_BUSY IO_BUSY p st e) = false.
Proof.
  intros H. destruct e as [l w|l w| | | | | |]; try destruct l; simpl;
    rewrite ?H; auto.
Qed.

Lemma watch_run_stuck t : forall st,
  ok st = false -> ok (watch_run DMA_BUSY IO_BUSY p st t) = false.
Proof.
  induction t as [|e t IH]; intros st H; [exact H|].
  simpl. apply IH. now apply watch_step_stuck.
Qed.

Lemma watch_run_prefix st t q :
  ok (watch_run DMA_BUSY IO_BUSY p st (t ++ q)) = true ->
  ok (watch_run DMA_BUSY IO_BUSY p st t) = true.
Proof.
  unfold watch_run. rewrite fold_left_app. intros H.
  destruct (ok (fold_left (watch_step DMA_BUSY IO_BUSY p) t st)) eqn:E; [reflexivity|].
  fold (watch_run DMA_BUSY IO_BUSY p (fold_left (watch_step DMA_BUSY IO_BUSY p) t st) q) in H.
  now rewrite (watch_run_stuck q _ E) in H.
Qed.

Lemma watch_pi_poll P : forall st,
  completes (pi_busy DMA_BUSY IO_BUSY) P = true ->
  watch_run DMA_BUSY IO_BUSY p st (reads PI_STATUS P)
  = {| pi_idle := true; sp_free := sp_free st; sp_idle := sp_idle st; ok := ok st |}.
Proof.
  unfold watch_run, reads.
  induction P as [|x P IH]; intros st H; simpl in H; [discriminate|].
  destruct (pi_busy DMA_BUSY IO_BUSY (wrap32 x)) eqn:Hb.
  - simpl. rewrite (IH _ H). reflexivity.
  - destruct P; [|discriminate]. simpl. now rewrite Hb.
Qed.

Lemma watch_full_poll F : forall st,
  completes nonzero F = true ->
  watch_run DMA_BUSY IO_BUSY p st (reads SP_DMA_FULL F)
  = {| pi_idle := pi_idle st; sp_free := true; sp_idle := sp_idle st; ok := ok st |}.
Proof.
  unfold watch_run, reads.
  induction F as [|x F IH]; intros st H; simpl in H; [discriminate|].
  destruct (nonzero (wrap32 x)) eqn:Hb.
  - simpl. rewrite (IH _ H). reflexivity.
  - destruct F; [|discriminate]. simpl. now rewrite Hb.
Qed.

Lemma watch_busy_poll B : forall st,
  completes nonzero B = true ->
  watch_run DMA_BUSY IO_BUSY p st (reads SP_DMA_BUSY B)
  = {| pi_idle := pi_idle st; sp_free := sp_free st; sp_idle := true; ok := ok st |}.
Proof.
  unfold watch_run, reads.
  induction B as [|x B IH]; intros st H; simpl in H; [discriminate|].
  destruct (nonzero (wrap32 x)) eqn:Hb.
  - simpl. rewrite (IH _ H). reflexivity.
  - destruct B; [|discriminate]. simpl. now rewrite Hb.
Qed.

Lemma watch_run_app st a b :
  watch_run DMA_BUSY IO_BUSY p st (a ++ b)
  = watch_run DMA_BUSY IO_BUSY p (watch_run DMA_BUSY IO_BUSY p st a) b.
Proof. apply fold_left_app. Qed.
End DisciplineFacts.

Section DisciplineOfRuns.
Variables DMA_BUSY IO_BUSY : Z.

Lemma watch_stage2_trace p st v e s P1 P2 x F1 F2 B :
  completes (pi_busy DMA_BUSY IO_BUSY) P1 = true ->
  completes (pi_busy DMA_BUSY IO_BUSY) P2 = true ->
  completes nonzero F1 = true -> completes nonzero F2 = true ->
  completes nonzero B = true ->
  ok (watch_run DMA_BUSY IO_BUSY p st (stage2_trace v e s P1 P2 x F1 F2 B))
  = match p with
    | IdleBeforeIssue => ok st && sp_idle st && false
    | NotFullBeforeIssue => ok st
    end.
Proof.
  intros HP1 HP2 HF1 HF2 HB.
  unfold stage2_trace, stage3_trace. rewrite !watch_run_app.
  rewrite (watch_busy_poll _ _ _ B _ HB).
  rewrite (watch_full_poll _ _ _ F2 _ HF2).
  rewrite (watch_full_poll _ _ _ F1 _ HF1).
  rewrite (watch_pi_poll _ _ _ P2 _ HP2).
  rewrite (watch_pi_poll _ _ _ P1 _ HP1).
  destruct v, p, st as [a b c d]; cbn; destruct d, c; reflexivity.
Qed.

Lemma stage2_polled_before_use v script :
  polled_before_use DMA_BUSY IO_BUSY (trace_of (stage2 DMA_BUSY IO_BUSY v script)) = true.
Proof.
  destruct (stage2_completion DMA_BUSY IO_BUSY v script) as (t1 & Ht1 & [q ->]).
  apply stage2_exit_inv in Ht1.
  destruct Ht1 as (e & s & P1 & P2 & x & F1 & F2 & B & rest & _ & H1 & H2 & H3 & H4 & H5 & Ht).
  unfold polled_before_use.
  apply (watch_run_prefix _ _ _ _ _ q). rewrite Ht.
  now rewrite watch_stage2_trace.
Qed.

Lemma stage2_not_single_outstanding v script t :
  stage2 DMA_BUSY IO_BUSY v script = (t, Exit) ->
  single_outstanding DMA_BUSY IO_BUSY t = false.
Proof.
  intros H. apply stage2_exit_inv in H.
  destruct H as (e & s & P1 & P2 & x & F1 & F2 & B & rest & _ & H1 & H2 & H3 & H4 & H5 & ->).
  unfold single_outstanding. now rewrite watch_stage2_trace.
Qed.
End DisciplineOfRuns.

(** C4, as stated, fails: with hardware that answers idle at once, the
    second coprocessor descriptor (the clear of the scratch memory) is
    given right after [SP_DMA_FULL] read as zero, with no report that the
    engine is idle since the first descriptor; both variants. *)
Lemma single_outstanding_counterexample :
  exited (stage2 1 2 Normal [0x80000400; 0x2000; 0; 0; 0x800000; 0; 0; 0]) = true /\
  single_outstanding 1 2
    (trace_of (stage2 1 2 Normal [0x80000400; 0x2000; 0; 0; 0x800000; 0; 0; 0])) = false /\
  exited (stage2 1 2 Compat [0x80000400; 0x2000; 0; 0; 0x800000; 0; 0; 0]) = true /\
  single_outstanding 1 2
    (trace_of (stage2 1 2 Compat [0x80000400; 0x2000; 0; 0; 0x800000; 0; 0; 0])) = false /\
  firstn 9 (skipn 11 (trace_of (stage2 1 2 Normal
                                 [0x80000400; 0x2000; 0; 0; 0x800000; 0; 0; 0])))
  = [ EvRead SP_DMA_FULL 0;
      EvWrite SP_RSP_ADDR 0xA4001000; EvWrite SP_DRAM_ADDR 0x7F8000;
      EvWrite SP_WR_LEN 0x1F3FF;
      EvRead SP_DMA_FULL 0;
      EvWrite SP_DRAM_ADDR 0x00802000; EvWrite SP_RSP_ADDR 0xA4000010;
      EvWrite SP_RD_LEN 4079; EvSiWait ].
Proof. vm_compute. repeat split; reflexivity. Qed.

(** C4, amended: in every execution, both variants, the cartridge
    descriptor is given after [PI_STATUS] showed neither busy bit, each
    coprocessor descriptor after [SP_DMA_FULL] read as zero (a free slot:
    the engine may still be working on the previous descriptor), and the
    stack set-up and the jump come after [SP_DMA_BUSY] read as zero, that
    is after the coprocessor engine is fully idle.  No run that reaches
    the jump waits for the coprocessor engine to be idle between its two
    descriptors. *)
Theorem polling_discipline :
  forall DMA_BUSY IO_BUSY v script,
    polled_before_use DMA_BUSY IO_BUSY
      (trace_of (stage2 DMA_BUSY IO_BUSY v script)) = true /\
    exited (stage2 DMA_BUSY IO_BUSY v (script ++ repeat 0 8)) = true /\
    (forall t, stage2 DMA_BUSY IO_BUSY v script = (t, Exit) ->
               single_outstanding DMA_BUSY IO_BUSY t = false).
Proof.
  intros DMA_BUSY IO_BUSY v script. split; [apply stage2_polled_before_use|]. split.
  - destruct (stage2_completion DMA_BUSY IO_BUSY v script) as (t1 & Ht1 & _).
    unfold exited. now rewrite Ht1.
  - intros t. apply stage2_not_single_outstanding.
Qed.

Lemma polling_discipline_witness :
  single_outstanding 1 2
    (trace_of (stage2 1 2 Normal [0x80000400; 0x2000; 3; 0; 1; 0; 0x800000; 1; 0; 0; 5; 0]))
  = false.
Proof.
  apply (proj2 (proj2 (polling_discipline 1 2 Normal
           [0x80000400; 0x2000; 3; 0; 1; 0; 0x800000; 1; 0; 0; 5; 0]))).
  vm_compute. reflexivity.
Defined.

(** * Memory after the clears *)

Lemma copy_to_rdram rsp dram n m :
  spmem (copy_bytes ToRdram rsp dram n m) = spmem m /\
  forall a,
    rdram (copy_bytes ToRdram rsp dram n m) a
    = if (dram <=? a) && (a <? dram + Z.of_nat n)
      then spmem m (sp_slot rsp (a - dram))
      else rdram m a.
Proof.
  induction n as [|n [IHs IHr]].
  - split; [reflexivity|]. intros a. simpl.
    destruct (dram <=? a) eqn:E1, (a <? dram + 0) eqn:E2; simpl; try reflexivity.
    apply Z.leb_le in E1. apply Z.ltb_lt in E2. lia.
  - split; [exact IHs|]. intros a. cbn [copy_bytes copy_byte rdram].
    unfold upd. rewrite IHs, IHr.
    destruct (a =? dram + Z.of_nat n) eqn:Ea.
    + apply Z.eqb_eq in Ea. subst a.
      replace (dram + Z.of_nat n - dram) with (Z.of_nat n) by lia.
      replace ((dram <=? dram + Z.of_nat n) && (dram + Z.of_nat n <? dram + Z.of_nat (S n)))
        with true; [reflexivity|].
      symmetry. apply andb_true_intro. split; [apply Z.leb_le | apply Z.ltb_lt]; lia.
    + apply Z.eqb_neq in Ea.
      replace (a <? dram + Z.of_nat (S n)) with (a <? dram + Z.of_nat n); [reflexivity|].
      destruct (a <? dram + Z.of_nat n) eqn:E1; symmetry;
        [apply Z.ltb_lt in E1; apply Z.ltb_lt | apply Z.ltb_ge in E1; apply Z.ltb_ge]; lia.
Qed.

Lemma sp_slot_no_wrap rsp k :
  0 <= k -> Z.land rsp 0xFFF + k < 4096 ->
  sp_slot rsp k = Z.land rsp 0x1000 + Z.land rsp 0xFFF + k.
Proof.
  intros Hk Hlt. unfold sp_slot.
  change 0xFFF with (Z.ones 12) in *. rewrite !Z.land_ones in * by lia.
  change (2 ^ 12) with 4096 in *.
  pose proof (Z.mod_pos_bound rsp 4096 ltac:(lia)).
  rewrite <- Zplus_mod_idemp_l. rewrite (Z.mod_small (rsp mod 4096 + k)) by lia. lia.
Qed.

Lemma copy_to_spmem rsp dram n m :
  Z.land rsp 0xFFF + Z.of_nat n <= 4096 ->
  rdram (copy_bytes ToSpmem rsp dram n m) = rdram m /\
  forall o,
    spmem (copy_bytes ToSpmem rsp dram n m) o
    = if (Z.land rsp 0x1000 + Z.land rsp 0xFFF <=? o)
         && (o <? Z.land rsp 0x1000 + Z.land rsp 0xFFF + Z.of_nat n)
      then rdram m (dram + (o - (Z.land rsp 0x1000 + Z.land rsp 0xFFF)))
      else spmem m o.
Proof.
  set (base := Z.land rsp 0x1000 + Z.land rsp 0xFFF).
  induction n as [|n IH]; intros Hfit.
  - split; [reflexivity|]. intros o. simpl.
    destruct (base <=? o) eqn:E1, (o <? base + 0) eqn:E2; simpl; try reflexivity.
    apply Z.leb_le in E1. apply Z.ltb_lt in E2. lia.
  - destruct IH as [IHr IHs]; [lia|].
    split; [exact IHr|]. intros o. cbn [copy_bytes copy_byte spmem].
    unfold upd. rewrite IHr, IHs.
    rewrite (sp_slot_no_wrap rsp (Z.of_nat n)) by lia. fold base.
    destruct (o =? base + Z.of_nat n) eqn:Eo.
    + apply Z.eqb_eq in Eo. subst o.
      replace (base + Z.of_nat n - base) with (Z.of_nat n) by lia.
      replace ((base <=? base + Z.of_nat n) && (base + Z.of_nat n <? base + Z.of_nat (S n)))
        with true; [reflexivity|].
      symmetry. apply andb_true_intro. split; [apply Z.leb_le | apply Z.ltb_lt]; lia.
    + apply Z.eqb_neq in Eo.
      replace (o <? base + Z.of_nat (S n)) with (o <? base + Z.of_nat n); [reflexivity|].
      destruct (o <? base + Z.of_nat n) eqn:E1; symmetry;
        [apply Z.ltb_lt in E1; apply Z.ltb_lt | apply Z.ltb_ge in E1; apply Z.ltb_ge]; lia.
Qed.

Lemma imem_slot k : sp_slot 0xA4001000 k = 0x1000 + k mod 4096.
Proof.
  unfold sp_slot. change (Z.land 0xA4001000 0x1000) with 0x1000.
  change 0xFFF with (Z.ones 12). rewrite Z.land_ones by lia.
  change (2 ^ 12) with 4096.
  replace (0xA4001000 + k) with (k + 671745 * 4096) by lia.
  now rewrite Z.mod_add by lia.
Qed.

Lemma in_range_true a lo hi : lo <= a < hi -> (lo <=? a) && (a <? hi) = true.
Proof.
  intros H. apply andb_true_intro. split; [apply Z.leb_le | apply Z.ltb_lt]; lia.
Qed.

Lemma in_range_false a lo hi : ~ (lo <= a < hi) -> (lo <=? a) && (a <? hi) = false.
Proof.
  intros H. destruct (lo <=? a) eqn:E1, (a <? hi) eqn:E2; try reflexivity.
  apply Z.leb_le in E1. apply Z.ltb_lt in E2. exfalso. apply H. lia.
Qed.

(** The two transfers of stage 3, applied to a memory. *)
Lemma stage3_transfers_effect v base m0 :
  let m1 :=
    fold_left sp_dma
      [ (ToRdram, 0xA4001000, base, reserved_len_word TOTAL_RESERVED_SIZE);
        match v with
        | Normal => (ToSpmem, 0xA4000010, 0x00802000, 4096 - 16 - 1)
        | Compat => (ToSpmem, 0xA4000000, 0x00802000, 4096 - 1)
        end ] m0 in
  (forall a, rdram m1 a
             = if (base <=? a) && (a <? base + TOTAL_RESERVED_SIZE)
               then spmem m0 (0x1000 + (a - base) mod 4096)
               else rdram m0 a) /\
  (forall o, spmem m1 o
             = if (first_cleared v <=? o) && (o <? 4096)
               then rdram m1 (0x00802000 + (o - first_cleared v))
               else spmem m0 o).
Proof.
  set (n1 := Z.to_nat 32768).
  assert (Hn1 : Z.of_nat n1 = 32768) by (unfold n1; apply Z2Nat.id; discriminate).
  set (mid := copy_bytes ToRdram 0xA4001000 base n1 m0).
  destruct (copy_to_rdram 0xA4001000 base n1 m0) as [Hs1 Hr1]. fold mid in Hs1, Hr1.
  assert (Hmid : forall a, rdram mid a
                 = if (base <=? a) && (a <? base + TOTAL_RESERVED_SIZE)
                   then spmem m0 (0x1000 + (a - base) mod 4096)
                   else rdram m0 a).
  { intros a. rewrite Hr1, Hn1. change TOTAL_RESERVED_SIZE with 32768.
    destruct ((base <=? a) && (a <? base + 32768)); [|reflexivity].
    now rewrite imem_slot. }
  destruct v.
  - set (n2 := Z.to_nat 4080).
    assert (Hn2 : Z.of_nat n2 = 4080) by (unfold n2; apply Z2Nat.id; discriminate).
    destruct (copy_to_spmem 0xA4000010 0x00802000 n2 mid) as [Hr2 Hs2].
    { rewrite Hn2. change (Z.land 0xA4000010 0xFFF) with 16. lia. }
    change (Z.land 0xA4000010 0x1000 + Z.land 0xA4000010 0xFFF) with 16 in Hs2.
    rewrite Hn2 in Hs2. change (16 + 4080) with 4096 in Hs2.
    intros m1.
    assert (Em : m1 = copy_bytes ToSpmem 0xA4000010 0x00802000 n2 mid) by reflexivity.
    rewrite Em, Hr2. split; [exact Hmid|].
    intros o. rewrite Hs2, Hs1. reflexivity.
  - set (n2 := Z.to_nat 4096).
    assert (Hn2 : Z.of_nat n2 = 4096) by (unfold n2; apply Z2Nat.id; discriminate).
    destruct (copy_to_spmem 0xA4000000 0x00802000 n2 mid) as [Hr2 Hs2].
    { rewrite Hn2. change (Z.land 0xA4000000 0xFFF) with 0. lia. }
    change (Z.land 0xA4000000 0x1000 + Z.land 0xA4000000 0xFFF) with 0 in Hs2.
    rewrite Hn2 in Hs2. change (0 + 4096) with 4096 in Hs2.
    intros m1.
    assert (Em : m1 = copy_bytes ToSpmem 0xA4000000 0x00802000 n2 mid) by reflexivity.
    rewrite Em, Hr2. split; [exact Hmid|].
    intros o. rewrite Hs2, Hs1. reflexivity.
Qed.

(** C3: when a run of stage 3 has reached the jump, whatever the memory
    held before, every byte of the reserved region (the
    [TOTAL_RESERVED_SIZE] bytes from [memsize - TOTAL_RESERVED_SIZE]) is
    the byte of the clear source at that place (IMEM, repeated), every
    scratch byte from offset 16 on (normal variant) or from offset 0 on
    (compatibility variant: all 4096 bytes) is the byte of the clear
    source at that place (RAM from 0x00802000), and the first 16 scratch
    bytes of the normal variant are as before; RAM outside the reserved
    region and IMEM are as before.  With clear sources that hold one
    value everywhere, all these bytes hold that value.  Idle hardware lets
    the run reach the jump. *)
Theorem memory_cleared :
  forall v entrypoint script,
    exited (stage3 v entrypoint (script ++ repeat 0 4)) = true /\
    (forall t m0,
       stage3 v entrypoint script = (t, Exit) ->
       exists memsize,
         In (EvRead (Mem match v with Normal => 0xA4000000 | Compat => 0x80000318 end)
                    memsize) t /\
         let base := (memsize - TOTAL_RESERVED_SIZE) mod 2 ^ 32 in
         let m1 := memory_after t m0 in
         (TOTAL_RESERVED_SIZE <= memsize -> base = memsize - TOTAL_RESERVED_SIZE) /\
         (forall k, 0 <= k < TOTAL_RESERVED_SIZE ->
                    rdram m1 (base + k) = spmem m0 (0x1000 + k mod 4096)) /\
         (forall o, first_cleared v <= o < 4096 ->
                    spmem m1 o = rdram m1 (0x00802000 + (o - first_cleared v))) /\
         (forall o, 0 <= o < first_cleared v -> spmem m1 o = spmem m0 o) /\
         (forall o, 0x1000 <= o < 0x2000 -> spmem m1 o = spmem m0 o) /\
         (forall a, ~ (base <= a < base + TOTAL_RESERVED_SIZE) ->
                    rdram m1 a = rdram m0 a) /\
         (forall z,
            (forall o, 0x1000 <= o < 0x2000 -> spmem m0 o = z) ->
            (forall a, 0x00802000 <= a < 0x00803000 -> rdram m0 a = z) ->
            (forall k, 0 <= k < TOTAL_RESERVED_SIZE -> rdram m1 (base + k) = z) /\
            (forall o, first_cleared v <= o < 4096 -> spmem m1 o = z))).
Proof.
  intros v entrypoint script. split.
  { destruct (stage3_completion TOTAL_RESERVED_SIZE v entrypoint script) as (t1 & Ht1 & _).
    fold (stage3 v entrypoint) in Ht1. unfold exited. now rewrite Ht1. }
  intros t m0 H. apply stage3_exit_inv in H.
  destruct H as (x & F1 & F2 & B & rest & _ & _ & _ & _ & ->).
  exists (wrap32 x). split.
  { unfold stage3_trace, read_memsize. apply in_or_app. left.
    destruct v; simpl; auto. }
  intros base m1.
  assert (Hfv : 0 <= first_cleared v <= 16) by (destruct v; simpl; lia).
  assert (Em : m1 = fold_left sp_dma
                      [ (ToRdram, 0xA4001000, base, reserved_len_word TOTAL_RESERVED_SIZE);
                        match v with
                        | Normal => (ToSpmem, 0xA4000010, 0x00802000, 4096 - 16 - 1)
                        | Compat => (ToSpmem, 0xA4000000, 0x00802000, 4096 - 1)
                        end ] m0).
  { unfold m1, memory_after, sp_transfers.
    rewrite sp_transfers_actions, actions_stage3_trace.
    fold (sp_transfers (stage3_actions TOTAL_RESERVED_SIZE v entrypoint x)).
    now rewrite sp_transfers_stage3_actions. }
  destruct (stage3_transfers_effect v base m0) as [Hr Hs].
  rewrite <- Em in Hr, Hs. clearbody m1. clear Em.
  assert (Hres : forall k, 0 <= k < TOTAL_RESERVED_SIZE ->
                           rdram m1 (base + k) = spmem m0 (0x1000 + k mod 4096)).
  { intros k Hk. rewrite Hr, in_range_true by lia.
    now replace (base + k - base) with k by lia. }
  assert (Hout : forall a, ~ (base <= a < base + TOTAL_RESERVED_SIZE) ->
                           rdram m1 a = rdram m0 a).
  { intros a Ha. now rewrite Hr, in_range_false. }
  assert (Hscr : forall o, first_cleared v <= o < 4096 ->
                           spmem m1 o = rdram m1 (0x00802000 + (o - first_cleared v))).
  { intros o Ho. now rewrite Hs, in_range_true. }
  split; [|split; [exact Hres|split; [exact Hscr|split; [|split; [|split; [exact Hout|]]]]]].
  - intros Hle. unfold base. apply Z.mod_small. pose proof (wrap32_range x).
    unfold TOTAL_RESERVED_SIZE, LOADER_SIZE in *. lia.
  - intros o Ho. rewrite Hs, in_range_false by lia. reflexivity.
  - intros o Ho. rewrite Hs, in_range_false by lia. reflexivity.
  - intros z Himem Hram.
    assert (Hz : forall k, 0 <= k < TOTAL_RESERVED_SIZE -> rdram m1 (base + k) = z).
    { intros k Hk. rewrite (Hres k Hk). apply Himem.
      pose proof (Z.mod_pos_bound k 4096 ltac:(lia)). lia. }
    split; [exact Hz|].
    intros o Ho. rewrite (Hscr o Ho).
    set (a := 0x00802000 + (o - first_cleared v)).
    assert (Ha : 0x00802000 <= a < 0x00803000) by (unfold a; lia).
    destruct (Z_le_gt_dec base a) as [H1|H1];
      [destruct (Z_lt_ge_dec a (base + TOTAL_RESERVED_SIZE)) as [H2|H2]|].
    + replace a with (base + (a - base)) by lia. apply Hz. lia.
    + rewrite Hout by lia. now apply Hram.
    + rewrite Hout by lia. now apply Hram.
Qed.

Lemma memory_cleared_witness :
  exists memsize,
    In (EvRead (Mem 0xA4000000) memsize)
       (trace_of (stage3 Normal 0x80000400 [0x800000; 1; 0; 0; 5; 0])) /\
    let base := (memsize - TOTAL_RESERVED_SIZE) mod 2 ^ 32 in
    let m0 := {| rdram := fun a => a mod 251; spmem := fun _ => 0 |} in
    let m1 := memory_after (trace_of (stage3 Normal 0x80000400 [0x800000; 1; 0; 0; 5; 0])) m0 in
    (TOTAL_RESERVED_SIZE <= memsize -> base = memsize - TOTAL_RESERVED_SIZE) /\
    (forall k, 0 <= k < TOTAL_RESERVED_SIZE ->
               rdram m1 (base + k) = spmem m0 (0x1000 + k mod 4096)) /\
    (forall o, first_cleared Normal <= o < 4096 ->
               spmem m1 o = rdram m1 (0x00802000 + (o - first_cleared Normal))) /\
    (forall o, 0 <= o < first_cleared Normal -> spmem m1 o = spmem m0 o) /\
    (forall o, 0x1000 <= o < 0x2000 -> spmem m1 o = spmem m0 o) /\
    (forall a, ~ (base <= a < base + TOTAL_RESERVED_SIZE) -> rdram m1 a = rdram m0 a) /\
    (forall z,
       (forall o, 0x1000 <= o < 0x2000 -> spmem m0 o = z) ->
       (forall a, 0x00802000 <= a < 0x00803000 -> rdram m0 a = z) ->
       (forall k, 0 <= k < TOTAL_RESERVED_SIZE -> rdram m1 (base + k) = z) /\
       (forall o, first_cleared Normal <= o < 4096 -> spmem m1 o = z)).
Proof.
  apply (proj2 (memory_cleared Normal 0x80000400 [0x800000; 1; 0; 0; 5; 0])).
  vm_compute. reflexivity.
Defined.

(** * Further properties of the loader *)

Lemma land_kseg1_low v : 0 <= v < 0x20000000 -> Z.land v 0xA0000000 = 0.
Proof.
  intros H.
  assert (Hv : v = Z.land v (Z.ones 29)).
  { rewrite Z.land_ones by lia. symmetry. apply Z.mod_small.
    change (2 ^ 29) with 0x20000000. lia. }
  rewrite Hv, <- Z.land_assoc. change (Z.land (Z.ones 29) 0xA0000000) with 0.
  apply Z.land_0_r.
Qed.

(** X1: [io_read32(vaddrx)] performs one load, from the address
    [vaddrx | 0xA0000000]: the same physical address (low 29 bits) with
    bits 31 and 29 set, that is the uncached alias [0xA0000000 + vaddrx]
    when [vaddrx] is a physical address; an address that already has
    these bits is used as it is.  The word loaded is returned, and the
    rest of the script is left untouched. *)
Theorem io_read32_uncached_alias :
  forall vaddrx x rest,
    io_read32 vaddrx (x :: rest)
    = ([EvRead (Mem (Z.lor vaddrx 0xA0000000)) (wrap32 x)], Ret (wrap32 x) rest) /\
    io_read32 vaddrx [] = ([], Starve) /\
    Z.land (Z.lor vaddrx 0xA0000000) 0x1FFFFFFF = Z.land vaddrx 0x1FFFFFFF /\
    Z.testbit (Z.lor vaddrx 0xA0000000) 31 = true /\
    Z.testbit (Z.lor vaddrx 0xA0000000) 29 = true /\
    Z.lor (Z.lor vaddrx 0xA0000000) 0xA0000000 = Z.lor vaddrx 0xA0000000 /\
    (0 <= vaddrx < 0x20000000 -> Z.lor vaddrx 0xA0000000 = 0xA0000000 + vaddrx).
Proof.
  intros vaddrx x rest. split; [reflexivity|]. split; [reflexivity|].
  split; [|split; [|split; [|split]]].
  - rewrite Z.land_lor_distr_l.
    change (Z.land 0xA0000000 0x1FFFFFFF) with 0. apply Z.lor_0_r.
  - rewrite Z.lor_spec. change (Z.testbit 0xA0000000 31) with true. apply orb_true_r.
  - rewrite Z.lor_spec. change (Z.testbit 0xA0000000 29) with true. apply orb_true_r.
  - rewrite <- Z.lor_assoc. now rewrite Z.lor_diag.
  - intros H. pose proof (Z.add_lor_land vaddrx 0xA0000000) as Ha.
    rewrite (land_kseg1_low vaddrx H) in Ha. lia.
Qed.

Lemma io_read32_uncached_alias_witness :
  Z.lor 0x10000008 0xA0000000 = 0xA0000000 + 0x10000008.
Proof.
  apply (proj2 (proj2 (proj2 (proj2 (proj2 (proj2
           (io_read32_uncached_alias 0x10000008 0 []))))))).
  split; [discriminate | reflexivity].
Defined.

(** X2: [pi_wait()] only loads [PI_STATUS]: it stores nothing.  It returns
    right after the first word that shows neither busy bit, leaving the
    rest of the script, and goes on polling as long as every word is
    busy. *)
Theorem pi_wait_behaviour :
  forall DMA_BUSY IO_BUSY script,
    (forall e, In e (trace_of (pi_wait DMA_BUSY IO_BUSY script)) ->
               exists w, e = EvRead PI_STATUS w) /\
    (forall pre x rest,
       script = pre ++ x :: rest ->
       forallb (fun y => pi_busy DMA_BUSY IO_BUSY (wrap32 y)) pre = true ->
       Z.land (wrap32 x) DMA_BUSY = 0 -> Z.land (wrap32 x) IO_BUSY = 0 ->
       pi_wait DMA_BUSY IO_BUSY script = (reads PI_STATUS (pre ++ [x]), Ret tt rest)) /\
    (forallb (fun y => pi_busy DMA_BUSY IO_BUSY (wrap32 y)) script = true ->
     pi_wait DMA_BUSY IO_BUSY script = (reads PI_STATUS script, Starve)).
Proof.
  intros DMA_BUSY IO_BUSY script. unfold pi_wait. split; [|split].
  - induction script as [|x script IH]; simpl; [intros e []|].
    destruct (pi_busy DMA_BUSY IO_BUSY (wrap32 x)).
    + destruct (spin PI_STATUS (pi_busy DMA_BUSY IO_BUSY) script) as [t o].
      simpl in *. intros e [<-|He]; eauto.
    + simpl. intros e [<-|[]]. eauto.
  - intros pre x rest -> Hpre Hd Hi.
    replace (pre ++ x :: rest) with ((pre ++ [x]) ++ rest) by (now rewrite <- app_assoc).
    apply spin_complete. apply completes_split. exists pre, x.
    split; [reflexivity|]. split; [exact Hpre|]. now apply pi_busy_false.
  - induction script as [|x script IH]; simpl; [reflexivity|].
    intros H. apply andb_prop in H. destruct H as [Hx Hs].
    rewrite Hx, (IH Hs). reflexivity.
Qed.

Lemma pi_wait_behaviour_witness :
  pi_wait 1 2 [3; 1; 0; 7] = (reads PI_STATUS ([3; 1] ++ [0]), Ret tt [7]).
Proof.
  apply (proj1 (proj2 (pi_wait_behaviour 1 2 [3; 1; 0; 7])) [3; 1] 0 [7]);
    reflexivity.
Defined.



(** X4: a run that reaches the jump jumps, as its last action and only
    once, to the very address it gave the cartridge engine as RAM
    destination: the entry word of the header. *)
Theorem jump_to_loaded_image :
  forall DMA_BUSY IO_BUSY v script t,
    stage2 DMA_BUSY IO_BUSY v script = (t, Exit) ->
    exists dest len t0,
      hd_error t = Some (EvRead (Mem (Z.lor 0x10000008 0xA0000000)) dest) /\
      pi_transfers t = [ (dest, 0x10001000, len) ] /\
      t = t0 ++ [EvJump dest] /\
      (forall target, In (EvJump target) t0 -> False).
Proof.
  intros DMA_BUSY IO_BUSY v script t H.
  pose proof (stage2_exit_transfers _ _ _ _ _ H) as (e0 & s0 & rest0 & t' & Hs & Ht' & Hpi).
  apply stage2_exit_inv in H.
  destruct H as (e & s & P1 & P2 & x & F1 & F2 & B & rest & -> & _ & _ & _ & _ & _ & ->).
  inversion Hs; subst e0 s0.
  exists (wrap32 e), (stage2_size (wrap32 e) (wrap32 s)).
  set (body := read_header e s ++ reads PI_STATUS P1
               ++ [ EvWrite PI_DRAM_ADDR (wrap32 e); EvWrite PI_CART_ADDR 0x10001000;
                    EvWrite PI_WR_LEN (wrap32 (stage2_size (wrap32 e) (wrap32 s) - 1)) ]
               ++ reads PI_STATUS P2 ++ [EvRcpReset]
               ++ read_memsize v x ++ [EvCacheReset]
               ++ reads SP_DMA_FULL F1 ++ clear_reserved TOTAL_RESERVED_SIZE (wrap32 x)
               ++ reads SP_DMA_FULL F2 ++ clear_dmem v ++ reads SP_DMA_BUSY B
               ++ match v with
                  | Normal => [EvSetSP (sub32 (add32 0x80000000 (wrap32 (to_int (wrap32 x)))) 0x10)]
                  | Compat => []
                  end).
  exists body. split; [reflexivity|]. split; [exact Hpi|]. split.
  - unfold body, stage2_trace, stage3_trace, handoff.
    rewrite <- !app_assoc. destruct v; reflexivity.
  - intros target Hin. unfold body in Hin.
    assert (Hreads : forall l vs, In (EvJump target) (reads l vs) -> False).
    { intros l vs Hl. unfold reads in Hl. apply in_map_iff in Hl.
      destruct Hl as (y & Hy & _). discriminate. }
    repeat (apply in_app_or in Hin; destruct Hin as [Hin|Hin];
            [first [ now apply Hreads in Hin
                   | destruct v; simpl in Hin; intuition discriminate ] |]).
    destruct v; simpl in Hin; intuition discriminate.
Qed.

Lemma jump_to_loaded_image_witness :
  exists dest len t0,
    hd_error (trace_of (stage2 1 2 Normal [0x80000400; 0x2000; 0; 0; 0x800000; 0; 0; 0]))
    = Some (EvRead (Mem (Z.lor 0x10000008 0xA0000000)) dest) /\
    pi_transfers (trace_of (stage2 1 2 Normal [0x80000400; 0x2000; 0; 0; 0x800000; 0; 0; 0]))
    = [ (dest, 0x10001000, len) ] /\
    trace_of (stage2 1 2 Normal [0x80000400; 0x2000; 0; 0; 0x800000; 0; 0; 0])
    = t0 ++ [EvJump dest] /\
    (forall target, In (EvJump target) t0 -> False).
Proof.
  apply (jump_to_loaded_image 1 2 Normal [0x80000400; 0x2000; 0; 0; 0x800000; 0; 0; 0]).
  vm_compute. reflexivity.
Defined.

(** X5: when the entry address leaves room below the reserved region of
    an 8 MiB memory, the size stage 2 transfers fits that room exactly
    when the declared size is nonzero and fits, or when the room is at
    least the 1 MiB fallback: the fallback itself is not clamped. *)
Theorem effective_size_fits_room :
  forall e s,
    0 <= s < 2 ^ 32 ->
    Z.land e 0x1FFFFFFF + TOTAL_RESERVED_SIZE <= 8 * 1024 * 1024 ->
    let room := 8 * 1024 * 1024 - Z.land e 0x1FFFFFFF - TOTAL_RESERVED_SIZE in
    (stage2_size e s <= room <-> 0 < s <= room \/ 1 * 1024 * 1024 <= room) /\
    (0 < s <= room -> stage2_size e s = s) /\
    (room < 1 * 1024 * 1024 -> s = 0 \/ room < s -> room < stage2_size e s).
Proof.
  intros e s Hs Hroom room.
  pose proof (low_bits_range e) as Hl.
  destruct (stage2_size_cases e s) as [H1 H2].
  assert (Hm : (8 * 1024 * 1024 - Z.land e 0x1FFFFFFF - TOTAL_RESERVED_SIZE) mod 2 ^ 32
               = room).
  { apply Z.mod_small. unfold room, TOTAL_RESERVED_SIZE, LOADER_SIZE in *. lia. }
  rewrite Hm in H1, H2.
  destruct (Z_lt_le_dec 0 s) as [Hpos|Hzero];
    [destruct (Z_le_gt_dec s room) as [Hfit|Hbig]|].
  - rewrite H2 by lia. repeat split; intros; lia.
  - rewrite H1 by lia. repeat split; intros; lia.
  - rewrite H1 by lia. repeat split; intros; lia.
Qed.

Lemma effective_size_fits_room_witness :
  8 * 1024 * 1024 - Z.land 0x80700000 0x1FFFFFFF - TOTAL_RESERVED_SIZE
  < stage2_size 0x80700000 0.
Proof.
  refine (proj2 (proj2 (effective_size_fits_room 0x80700000 0 _ _)) _ _).
  - split; [discriminate | reflexivity].
  - discriminate.
  - reflexivity.
  - left. reflexivity.
Defined.

Section FlightFacts.
Variables DMA_BUSY IO_BUSY : Z.

Lemma flight_step_stuck st e :
  only_polled st = false -> only_polled (flight_step DMA_BUSY IO_BUSY st e) = false.
Proof.
  intros H. destruct e as [l w|l w| | | | | |]; try destruct l; simpl;
    rewrite ?H; auto.
Qed.

Lemma flight_run_stuck t : forall st,
  only_polled st = false -> only_polled (flight_run DMA_BUSY IO_BUSY st t) = false.
Proof.
  induction t as [|e t IH]; intros st H; [exact H|].
  simpl. apply IH. now apply flight_step_stuck.
Qed.

Lemma flight_run_app st a b :
  flight_run DMA_BUSY IO_BUSY st (a ++ b)
  = flight_run DMA_BUSY IO_BUSY (flight_run DMA_BUSY IO_BUSY st a) b.
Proof. apply fold_left_app. Qed.

Lemma flight_run_prefix st t q :
  only_polled (flight_run DMA_BUSY IO_BUSY st (t ++ q)) = true ->
  only_polled (flight_run DMA_BUSY IO_BUSY st t) = true.
Proof.
  rewrite flight_run_app. intros H.
  destruct (only_polled (flight_run DMA_BUSY IO_BUSY st t)) eqn:E; [reflexivity|].
  now rewrite (flight_run_stuck q _ E) in H.
Qed.

Lemma flight_pi_poll P : forall st,
  completes (pi_busy DMA_BUSY IO_BUSY) P = true ->
  flight_run DMA_BUSY IO_BUSY st (reads PI_STATUS P)
  = {| in_flight := false; only_polled := only_polled st |}.
Proof.
  unfold flight_run, reads.
  induction P as [|x P IH]; intros st H; simpl in H; [discriminate|].
  destruct (pi_busy DMA_BUSY IO_BUSY (wrap32 x)) eqn:Hb.
  - simpl. rewrite (IH _ H). reflexivity.
  - destruct P; [|discriminate]. simpl. rewrite Hb. now rewrite andb_false_r.
Qed.

Lemma flight_sp_poll l vs : forall st,
  l = SP_DMA_FULL \/ l = SP_DMA_BUSY -> in_flight st = false ->
  flight_run DMA_BUSY IO_BUSY st (reads l vs)
  = {| in_flight := false; only_polled := only_polled st |}.
Proof.
  unfold flight_run, reads.
  induction vs as [|x vs IH]; intros st Hl Hf.
  - simpl. destruct st as [a b]. simpl in Hf. now subst a.
  - simpl. rewrite IH; [| exact Hl | destruct Hl; subst l; exact Hf].
    destruct Hl; subst l; simpl; rewrite Hf; now rewrite andb_true_r.
Qed.

Lemma flight_stage2_trace v e s P1 P2 x F1 F2 B :
  completes (pi_busy DMA_BUSY IO_BUSY) P1 = true ->
  completes (pi_busy DMA_BUSY IO_BUSY) P2 = true ->
  flight_run DMA_BUSY IO_BUSY {| in_flight := false; only_polled := true |}
    (stage2_trace v e s P1 P2 x F1 F2 B)
  = {| in_flight := false; only_polled := true |}.
Proof.
  intros HP1 HP2. unfold stage2_trace, stage3_trace. rewrite !flight_run_app.
  rewrite (flight_pi_poll P1 _ HP1).
  rewrite (flight_pi_poll P2 _ HP2).
  rewrite (flight_sp_poll SP_DMA_FULL F1) by (auto; destruct v; reflexivity).
  rewrite (flight_sp_poll SP_DMA_FULL F2) by (auto; destruct v; reflexivity).
  rewrite (flight_sp_poll SP_DMA_BUSY B) by (auto; destruct v; reflexivity).
  destruct v; reflexivity.
Qed.
End FlightFacts.

(** X6: in every execution, from the store to [PI_WR_LEN] that starts the
    cartridge transfer until [PI_STATUS] has been read with neither busy
    bit, the loader does nothing but load [PI_STATUS]: [rcp_reset] and all
    of stage 3 come after the transfer was seen complete.  A run that
    reaches the jump has no transfer left in flight. *)
Theorem nothing_but_polling_while_loading :
  forall DMA_BUSY IO_BUSY v script,
    polls_while_loading DMA_BUSY IO_BUSY
      (trace_of (stage2 DMA_BUSY IO_BUSY v script)) = true /\
    (forall t,
       stage2 DMA_BUSY IO_BUSY v script = (t, Exit) ->
       in_flight (flight_run DMA_BUSY IO_BUSY
                    {| in_flight := false; only_polled := true |} t) = false /\
       exists before after,
         t = before ++ EvRcpReset :: after /\
         pi_transfers before = pi_transfers t /\
         in_flight (flight_run DMA_BUSY IO_BUSY
                      {| in_flight := false; only_polled := true |} before) = false).
Proof.
  intros DMA_BUSY IO_BUSY v script. split.
  - destruct (stage2_completion DMA_BUSY IO_BUSY v script) as (t1 & Ht1 & [q Hq]).
    apply stage2_exit_inv in Ht1.
    destruct Ht1 as (e & s & P1 & P2 & x & F1 & F2 & B & rest & _ & H1 & H2 & _ & _ & _ & Ht).
    unfold polls_while_loading. apply (flight_run_prefix _ _ _ _ q).
    rewrite <- Hq, Ht. now rewrite flight_stage2_trace.
  - intros t H.
    pose proof (stage2_exit_transfers _ _ _ _ _ H) as (e0 & s0 & rest0 & t' & Hs & _ & Hpi).
    apply stage2_exit_inv in H.
    destruct H as (e & s & P1 & P2 & x & F1 & F2 & B & rest & -> & H1 & H2 & _ & _ & _ & ->).
    inversion Hs; subst e0 s0.
    split; [now rewrite flight_stage2_trace|].
    exists (read_header e s ++ reads PI_STATUS P1
            ++ [ EvWrite PI_DRAM_ADDR (wrap32 e); EvWrite PI_CART_ADDR 0x10001000;
                 EvWrite PI_WR_LEN (wrap32 (stage2_size (wrap32 e) (wrap32 s) - 1)) ]
            ++ reads PI_STATUS P2).
    exists (stage3_trace TOTAL_RESERVED_SIZE v (wrap32 e) x F1 F2 B).
    split; [|split].
    + unfold stage2_trace. now rewrite <- !app_assoc.
    + rewrite Hpi. unfold pi_transfers.
      rewrite pi_transfers_actions, !actions_app, !actions_reads by reflexivity.
      pose proof (stage2_size_range (wrap32 e) (wrap32 s) (wrap32_range s)) as Hr.
      cbn. rewrite (wrap32_small (stage2_size (wrap32 e) (wrap32 s) - 1)) by lia.
      f_equal. f_equal. lia.
    + rewrite !flight_run_app, (flight_pi_poll _ _ P1 _ H1), (flight_pi_poll _ _ P2 _ H2).
      reflexivity.
Qed.

Lemma nothing_but_polling_while_loading_witness :
  in_flight (flight_run 1 2 {| in_flight := false; only_polled := true |}
               (trace_of (stage2 1 2 Normal
                            [0x80000400; 0x2000; 3; 0; 1; 2; 0; 0x800000; 0; 0; 0])))
  = false /\
  exists before after,
    trace_of (stage2 1 2 Normal [0x80000400; 0x2000; 3; 0; 1; 2; 0; 0x800000; 0; 0; 0])
    = before ++ EvRcpReset :: after /\
    pi_transfers before
    = pi_transfers (trace_of (stage2 1 2 Normal
                                [0x80000400; 0x2000; 3; 0; 1; 2; 0; 0x800000; 0; 0; 0])) /\
    in_flight (flight_run 1 2 {| in_flight := false; only_polled := true |} before) = false.
Proof.
  apply (proj2 (nothing_but_polling_while_loading 1 2 Normal
                  [0x80000400; 0x2000; 3; 0; 1; 2; 0; 0x800000; 0; 0; 0])).
  vm_compute. reflexivity.
Defined.

(** ** The image and the clears *)

Lemma sp_transfers_stage2_trace v e s P1 P2 x F1 F2 B :
  sp_transfers (stage2_trace v e s P1 P2 x F1 F2 B)
  = [ (ToRdram, 0xA4001000, (wrap32 x - TOTAL_RESERVED_SIZE) mod 2 ^ 32,
       reserved_len_word TOTAL_RESERVED_SIZE);
      match v with
      | Normal => (ToSpmem, 0xA4000010, 0x00802000, 4096 - 16 - 1)
      | Compat => (ToSpmem, 0xA4000000, 0x00802000, 4096 - 1)
      end ].
Proof.
  unfold sp_transfers. rewrite sp_transfers_actions, actions_stage2_trace.
  rewrite <- sp_transfers_stage3_actions with (entrypoint := wrap32 e).
  reflexivity.
Qed.

(** RAM after the clears of a run that reached the jump. *)
Lemma rdram_after_stage2_trace v e s P1 P2 x F1 F2 B m0 a :
  rdram (memory_after (stage2_trace v e s P1 P2 x F1 F2 B) m0) a
  = if ((wrap32 x - TOTAL_RESERVED_SIZE) mod 2 ^ 32 <=? a)
       && (a <? (wrap32 x - TOTAL_RESERVED_SIZE) mod 2 ^ 32 + TOTAL_RESERVED_SIZE)
    then spmem m0 (0x1000 + (a - (wrap32 x - TOTAL_RESERVED_SIZE) mod 2 ^ 32) mod 4096)
    else rdram m0 a.
Proof.
  unfold memory_after. rewrite sp_transfers_stage2_trace.
  apply (stage3_transfers_effect v).
Qed.

Lemma memsize_read_unique v e s P1 P2 x F1 F2 B y :
  In (EvRead (Mem (memsize_addr v)) y) (stage2_trace v e s P1 P2 x F1 F2 B) ->
  y = wrap32 x.
Proof.
  intros Hin.
  assert (Hf : In (EvRead (Mem (memsize_addr v)) y)
                  (filter is_mem_read (stage2_trace v e s P1 P2 x F1 F2 B))).
  { apply filter_In. split; [exact Hin | reflexivity]. }
  rewrite (filter_actions is_mem_read), actions_stage2_trace in Hf
    by (intros [[]| | | | | | |]; simpl; congruence).
  destruct v; simpl in Hf;
    destruct Hf as [Hf|[Hf|[Hf|[]]]]; inversion Hf; reflexivity.
Qed.

Lemma stage2_size_accepted e s :
  0 < s <= 8 * 1024 * 1024 - Z.land e 0x1FFFFFFF - TOTAL_RESERVED_SIZE ->
  stage2_size e s = s.
Proof.
  intros Hs. pose proof (low_bits_range e) as Hl.
  destruct (stage2_size_cases e s) as [_ H2]. apply H2.
  rewrite Z.mod_small by (unfold TOTAL_RESERVED_SIZE, LOADER_SIZE in *; lia).
  lia.
Qed.

(** X7: with a memory size of 8 MiB or more, the clears of stage 3 leave
    alone every RAM byte of an image whose declared size was accepted
    (nonzero and within [8 MiB - (entry & 0x1FFFFFFF) -
    TOTAL_RESERVED_SIZE]): the transfer has exactly the declared size, and
    the bytes from [entry & 0x1FFFFFFF] on are, after the clears, what
    they were before them. *)
Theorem accepted_image_survives_clears :
  forall DMA_BUSY IO_BUSY v e s rest t memsize m0,
    stage2 DMA_BUSY IO_BUSY v (e :: s :: rest) = (t, Exit) ->
    0 <= e < 2 ^ 32 ->
    0 < s <= 8 * 1024 * 1024 - Z.land e 0x1FFFFFFF - TOTAL_RESERVED_SIZE ->
    In (EvRead (Mem (memsize_addr v)) memsize) t ->
    8 * 1024 * 1024 <= memsize ->
    pi_transfers t = [ (e, 0x10001000, s) ] /\
    forall k, 0 <= k < s ->
              rdram (memory_after t m0) (Z.land e 0x1FFFFFFF + k)
              = rdram m0 (Z.land e 0x1FFFFFFF + k).
Proof.
  intros DMA_BUSY IO_BUSY v e s rest t memsize m0 H He Hs Hin Hmem.
  pose proof (low_bits_range e) as Hl.
  assert (Hs32 : 0 <= s < 2 ^ 32).
  { unfold TOTAL_RESERVED_SIZE, LOADER_SIZE in *. lia. }
  pose proof (stage2_exit_transfers _ _ _ _ _ H) as (e0 & s0 & rest0 & t' & Hscr & _ & Hpi).
  inversion Hscr; subst e0 s0 rest0.
  rewrite (wrap32_small e He), (wrap32_small s Hs32) in Hpi.
  rewrite (stage2_size_accepted e s Hs) in Hpi. split; [exact Hpi|].
  apply stage2_exit_inv in H.
  destruct H as (e1 & s1 & P1 & P2 & x & F1 & F2 & B & rest1 & _ & _ & _ & _ & _ & _ & ->).
  apply memsize_read_unique in Hin. subst memsize.
  pose proof (wrap32_range x) as Hx.
  intros k Hk. rewrite rdram_after_stage2_trace, in_range_false; [reflexivity|].
  rewrite Z.mod_small by (unfold TOTAL_RESERVED_SIZE, LOADER_SIZE in *; lia).
  unfold TOTAL_RESERVED_SIZE, LOADER_SIZE in *. lia.
Qed.

Lemma accepted_image_survives_clears_witness :
  pi_transfers (trace_of (stage2 1 2 Compat [0x80000400; 0x2000; 0; 0; 0x800000; 0; 0; 0]))
  = [ (0x80000400, 0x10001000, 0x2000) ] /\
  forall k, 0 <= k < 0x2000 ->
            rdram (memory_after
                     (trace_of (stage2 1 2 Compat
                                  [0x80000400; 0x2000; 0; 0; 0x800000; 0; 0; 0]))
                     {| rdram := fun a => a mod 251; spmem := fun _ => 0 |})
                  (Z.land 0x80000400 0x1FFFFFFF + k)
            = rdram {| rdram := fun a => a mod 251; spmem := fun _ => 0 |}
                    (Z.land 0x80000400 0x1FFFFFFF + k).
Proof.
  apply (accepted_image_survives_clears 1 2 Compat 0x80000400 0x2000
           [0; 0; 0x800000; 0; 0; 0]
           (trace_of (stage2 1 2 Compat [0x80000400; 0x2000; 0; 0; 0x800000; 0; 0; 0]))
           0x800000).
  - vm_compute. reflexivity.
  - split; [discriminate | reflexivity].
  - split; [reflexivity | discriminate].
  - vm_compute. tauto.
  - discriminate.
Defined.

(** X8: the size check of stage 2 knows only the constant 8 MiB.  For
    every memory size below 8 MiB there is a header that it accepts (the
    declared size 1 is kept) although the image starts on the first byte
    of the reserved region, and the clear of stage 3 then overwrites that
    byte with the first byte of IMEM. *)
Theorem small_memory_image_overwritten :
  forall DMA_BUSY IO_BUSY v memsize rest t m0,
    TOTAL_RESERVED_SIZE <= memsize < 8 * 1024 * 1024 ->
    stage2 DMA_BUSY IO_BUSY v ((0x80000000 + memsize - TOTAL_RESERVED_SIZE) :: 1 :: rest)
    = (t, Exit) ->
    In (EvRead (Mem (memsize_addr v)) memsize) t ->
    pi_transfers t
    = [ (0x80000000 + memsize - TOTAL_RESERVED_SIZE, 0x10001000, 1) ] /\
    Z.land (0x80000000 + memsize - TOTAL_RESERVED_SIZE) 0x1FFFFFFF
    = memsize - TOTAL_RESERVED_SIZE /\
    rdram (memory_after t m0) (memsize - TOTAL_RESERVED_SIZE) = spmem m0 0x1000.
Proof.
  intros DMA_BUSY IO_BUSY v memsize rest t m0 Hm H Hin.
  set (e := 0x80000000 + memsize - TOTAL_RESERVED_SIZE) in *.
  assert (He : 0 <= e < 2 ^ 32).
  { unfold e, TOTAL_RESERVED_SIZE, LOADER_SIZE in *. lia. }
  assert (Hlow : Z.land e 0x1FFFFFFF = memsize - TOTAL_RESERVED_SIZE).
  { change 0x1FFFFFFF with (Z.ones 29). rewrite Z.land_ones by lia.
    unfold e. replace (0x80000000 + memsize - TOTAL_RESERVED_SIZE)
      with (memsize - TOTAL_RESERVED_SIZE + 4 * 2 ^ 29) by (change (2 ^ 29) with 0x20000000; lia).
    rewrite Z.mod_add by lia. apply Z.mod_small.
    change (2 ^ 29) with 0x20000000.
    unfold TOTAL_RESERVED_SIZE, LOADER_SIZE in *. lia. }
  pose proof (stage2_exit_transfers _ _ _ _ _ H) as (e0 & s0 & rest0 & t' & Hscr & _ & Hpi).
  inversion Hscr; subst e0 s0 rest0.
  rewrite (wrap32_small e He) in Hpi. change (wrap32 1) with 1 in Hpi.
  rewrite stage2_size_accepted in Hpi
    by (rewrite Hlow; unfold TOTAL_RESERVED_SIZE, LOADER_SIZE in *; lia).
  split; [exact Hpi|]. split; [exact Hlow|].
  apply stage2_exit_inv in H.
  destruct H as (e1 & s1 & P1 & P2 & x & F1 & F2 & B & rest1 & _ & _ & _ & _ & _ & _ & ->).
  apply memsize_read_unique in Hin.
  assert (Hb : (memsize - TOTAL_RESERVED_SIZE) mod 2 ^ 32 = memsize - TOTAL_RESERVED_SIZE).
  { apply Z.mod_small. unfold TOTAL_RESERVED_SIZE, LOADER_SIZE in *. lia. }
  rewrite rdram_after_stage2_trace, <- Hin, Hb, in_range_true
    by (unfold TOTAL_RESERVED_SIZE, LOADER_SIZE in *; lia).
  now rewrite Z.sub_diag.
Qed.

Lemma small_memory_image_overwritten_witness :
  pi_transfers (trace_of (stage2 1 2 Compat
                            [0x80000000 + 0x400000 - TOTAL_RESERVED_SIZE; 1;
                             0; 0; 0x400000; 0; 0; 0]))
  = [ (0x80000000 + 0x400000 - TOTAL_RESERVED_SIZE, 0x10001000, 1) ] /\
  Z.land (0x80000000 + 0x400000 - TOTAL_RESERVED_SIZE) 0x1FFFFFFF
  = 0x400000 - TOTAL_RESERVED_SIZE /\
  rdram (memory_after
           (trace_of (stage2 1 2 Compat
                        [0x80000000 + 0x400000 - TOTAL_RESERVED_SIZE; 1;
                         0; 0; 0x400000; 0; 0; 0]))
           {| rdram := fun a => a mod 251; spmem := fun o => o mod 7 |})
        (0x400000 - TOTAL_RESERVED_SIZE)
  = spmem {| rdram := fun a => a mod 251; spmem := fun o => o mod 7 |} 0x1000.
Proof.
  apply (small_memory_image_overwritten 1 2 Compat 0x400000 [0; 0; 0x400000; 0; 0; 0]).
  - split; discriminate || reflexivity.
  - vm_compute. reflexivity.
  - vm_compute. tauto.
Defined.

(** ** The macros of loader.h and stage 3 *)

Lemma STACK2_TOP_stage3 x :
  STACK2_TOP (wrap32 x) 0
  = sub32 (add32 0x80000000 (wrap32 (to_int (wrap32 x)))) 0x10.
Proof.
  unfold STACK2_TOP, LOADER_BASE. rewrite (to_int_wrap (wrap32 x) (wrap32_range x)).
  rewrite wrap32_idem. change (wrap32 0) with 0.
  unfold sub32 at 2. rewrite Z.sub_0_r. unfold add32. now rewrite wrap32_idem.
Qed.

Lemma rdram_after_stage3_trace v entrypoint x F1 F2 B m0 a :
  rdram (memory_after (stage3_trace TOTAL_RESERVED_SIZE v entrypoint x F1 F2 B) m0) a
  = if ((wrap32 x - TOTAL_RESERVED_SIZE) mod 2 ^ 32 <=? a)
       && (a <? (wrap32 x - TOTAL_RESERVED_SIZE) mod 2 ^ 32 + TOTAL_RESERVED_SIZE)
    then spmem m0 (0x1000 + (a - (wrap32 x - TOTAL_RESERVED_SIZE) mod 2 ^ 32) mod 4096)
    else rdram m0 a.
Proof.
  unfold memory_after, sp_transfers.
  rewrite sp_transfers_actions, actions_stage3_trace.
  fold (sp_transfers (stage3_actions TOTAL_RESERVED_SIZE v entrypoint x)).
  rewrite sp_transfers_stage3_actions.
  apply (stage3_transfers_effect v).
Qed.

(** X9: the stack pointer stage 3 sets in the normal variant is
    [STACK2_TOP(memsize, 0)], 16 bytes below [LOADER_BASE(memsize, 0)], the
    top of RAM.  For a memory size between [TOTAL_RESERVED_SIZE] and 2 GiB
    the RAM address of the reserved-region clear is
    [LOADER_BASE(memsize, TOTAL_RESERVED_SIZE)] less the segment base
    0x80000000, and the stack pointer lies inside the region that clear
    covers: its 16 bytes up to the top of RAM hold the clear source. *)
Theorem stack_inside_cleared_region :
  forall entrypoint script t m0,
    stage3 Normal entrypoint script = (t, Exit) ->
    exists memsize second,
      In (EvRead (Mem 0xA4000000) memsize) t /\
      filter is_sp_or_jump t = [ EvSetSP (STACK2_TOP memsize 0); EvJump entrypoint ] /\
      (TOTAL_RESERVED_SIZE <= memsize < 0x80000000 ->
       STACK2_TOP memsize 0 + 16 = LOADER_BASE memsize 0 /\
       LOADER_BASE memsize TOTAL_RESERVED_SIZE + TOTAL_RESERVED_SIZE
       = LOADER_BASE memsize 0 /\
       sp_transfers t
       = [ (ToRdram, 0xA4001000,
            LOADER_BASE memsize TOTAL_RESERVED_SIZE - 0x80000000,
            reserved_len_word TOTAL_RESERVED_SIZE);
           second ] /\
       forall k, 0 <= k < 16 ->
                 rdram (memory_after t m0) (STACK2_TOP memsize 0 - 0x80000000 + k)
                 = spmem m0 (0x1000 + (TOTAL_RESERVED_SIZE - 16 + k) mod 4096)).
Proof.
  intros entrypoint script t m0 H.
  apply stage3_exit_inv in H.
  destruct H as (x & F1 & F2 & B & rest & -> & _ & _ & _ & ->).
  pose proof (wrap32_range x) as Hx.
  exists (wrap32 x). eexists. split; [|split].
  - unfold stage3_trace, read_memsize. apply in_or_app. left. simpl. auto.
  - rewrite (filter_actions is_sp_or_jump), actions_stage3_trace
      by (intros [[]| | | | | | |]; simpl; congruence).
    rewrite STACK2_TOP_stage3. reflexivity.
  - intros Hm.
    assert (Hb0 : LOADER_BASE (wrap32 x) 0 = 0x80000000 + wrap32 x).
    { unfold LOADER_BASE, sub32, add32. change (wrap32 0) with 0.
      rewrite wrap32_idem, Z.sub_0_r, wrap32_idem. apply wrap32_small. lia. }
    assert (Hbr : LOADER_BASE (wrap32 x) TOTAL_RESERVED_SIZE
                  = 0x80000000 + wrap32 x - TOTAL_RESERVED_SIZE).
    { unfold LOADER_BASE, sub32, add32. rewrite wrap32_idem.
      rewrite (wrap32_small (0x80000000 + wrap32 x)) by lia.
      change (wrap32 TOTAL_RESERVED_SIZE) with TOTAL_RESERVED_SIZE.
      apply wrap32_small. unfold TOTAL_RESERVED_SIZE, LOADER_SIZE in *. lia. }
    assert (Hst : STACK2_TOP (wrap32 x) 0 = 0x80000000 + wrap32 x - 16).
    { unfold STACK2_TOP. rewrite Hb0. apply wrap32_small.
      unfold TOTAL_RESERVED_SIZE, LOADER_SIZE in *. lia. }
    assert (Hbase : (wrap32 x - TOTAL_RESERVED_SIZE) mod 2 ^ 32
                    = wrap32 x - TOTAL_RESERVED_SIZE).
    { apply Z.mod_small. unfold TOTAL_RESERVED_SIZE, LOADER_SIZE in *. lia. }
    rewrite Hb0, Hbr, Hst. split; [lia|]. split; [lia|]. split.
    + unfold sp_transfers. rewrite sp_transfers_actions, actions_stage3_trace.
      fold (sp_transfers (stage3_actions TOTAL_RESERVED_SIZE Normal entrypoint x)).
      rewrite sp_transfers_stage3_actions, Hbase.
      replace (0x80000000 + wrap32 x - TOTAL_RESERVED_SIZE - 0x80000000)
        with (wrap32 x - TOTAL_RESERVED_SIZE) by lia.
      reflexivity.
    + intros k Hk. unfold stage3.
      rewrite rdram_after_stage3_trace, Hbase, in_range_true
        by (unfold TOTAL_RESERVED_SIZE, LOADER_SIZE in *; lia).
      f_equal. f_equal. f_equal. lia.
Qed.

Lemma stack_inside_cleared_region_witness :
  exists memsize second,
    In (EvRead (Mem 0xA4000000) memsize)
       (trace_of (stage3 Normal 0x80000400 [0x800000; 0; 0; 0])) /\
    filter is_sp_or_jump (trace_of (stage3 Normal 0x80000400 [0x800000; 0; 0; 0]))
    = [ EvSetSP (STACK2_TOP memsize 0); EvJump 0x80000400 ] /\
    (TOTAL_RESERVED_SIZE <= memsize < 0x80000000 ->
     STACK2_TOP memsize 0 + 16 = LOADER_BASE memsize 0 /\
     LOADER_BASE memsize TOTAL_RESERVED_SIZE + TOTAL_RESERVED_SIZE
     = LOADER_BASE memsize 0 /\
     sp_transfers (trace_of (stage3 Normal 0x80000400 [0x800000; 0; 0; 0]))
     = [ (ToRdram, 0xA4001000,
          LOADER_BASE memsize TOTAL_RESERVED_SIZE - 0x80000000,
          reserved_len_word TOTAL_RESERVED_SIZE);
         second ] /\
     forall k, 0 <= k < 16 ->
               rdram (memory_after (trace_of (stage3 Normal 0x80000400 [0x800000; 0; 0; 0]))
                        {| rdram := fun a => a mod 251; spmem := fun o => o mod 7 |})
                     (STACK2_TOP memsize 0 - 0x80000000 + k)
               = spmem {| rdram := fun a => a mod 251; spmem := fun o => o mod 7 |}
                       (0x1000 + (TOTAL_RESERVED_SIZE - 16 + k) mod 4096)).
Proof.
  apply (stack_inside_cleared_region 0x80000400 [0x800000; 0; 0; 0]).
  vm_compute. reflexivity.
Defined.

(** X10: in the normal variant stage 3 calls [si_write] first of all,
    before it even reads the memory size, and calls [si_wait] only after
    both coprocessor transfers were started: the notification runs while
    the cache reset and the clears are set up. *)
Theorem notification_overlaps_clears :
  forall entrypoint script,
    prefix_of (filter is_si_or_sp_start (trace_of (stage3 Normal entrypoint script)))
              [ EvSiWrite 0x7FC 0x8;
                EvWrite SP_WR_LEN (reserved_len_word TOTAL_RESERVED_SIZE);
                EvWrite SP_RD_LEN (4096 - 16 - 1); EvSiWait ] /\
    (forall t,
       stage3 Normal entrypoint script = (t, Exit) ->
       hd_error t = Some (EvSiWrite 0x7FC 0x8) /\
       filter is_si_or_sp_start t
       = [ EvSiWrite 0x7FC 0x8;
           EvWrite SP_WR_LEN (reserved_len_word TOTAL_RESERVED_SIZE);
           EvWrite SP_RD_LEN (4096 - 16 - 1); EvSiWait ]).
Proof.
  intros entrypoint script.
  assert (Hfull : forall s t,
            stage3 Normal entrypoint s = (t, Exit) ->
            hd_error t = Some (EvSiWrite 0x7FC 0x8) /\
            filter is_si_or_sp_start t
            = [ EvSiWrite 0x7FC 0x8;
                EvWrite SP_WR_LEN (reserved_len_word TOTAL_RESERVED_SIZE);
                EvWrite SP_RD_LEN (4096 - 16 - 1); EvSiWait ]).
  { intros s t H. apply stage3_exit_inv in H.
    destruct H as (x & F1 & F2 & B & rest & _ & _ & _ & _ & ->).
    split; [reflexivity|].
    rewrite (filter_actions is_si_or_sp_start), actions_stage3_trace
      by (intros [[]| | | | | | |]; simpl; congruence).
    reflexivity. }
  split; [|apply Hfull].
  destruct (stage3_completion TOTAL_RESERVED_SIZE Normal entrypoint script)
    as (t1 & Ht1 & Hp1).
  fold (stage3 Normal entrypoint) in Ht1, Hp1.
  destruct (Hfull _ _ Ht1) as [_ <-]. now apply filter_prefix.
Qed.

Lemma notification_overlaps_clears_witness :
  hd_error (trace_of (stage3 Normal 0x80000400 [0x800000; 1; 0; 0; 5; 0]))
  = Some (EvSiWrite 0x7FC 0x8) /\
  filter is_si_or_sp_start (trace_of (stage3 Normal 0x80000400 [0x800000; 1; 0; 0; 5; 0]))
  = [ EvSiWrite 0x7FC 0x8;
      EvWrite SP_WR_LEN (reserved_len_word TOTAL_RESERVED_SIZE);
      EvWrite SP_RD_LEN (4096 - 16 - 1); EvSiWait ].
Proof.
  apply (proj2 (notification_overlaps_clears 0x80000400 [0x800000; 1; 0; 0; 5; 0])).
  vm_compute. reflexivity.
Defined.

(** * binout.h: the conversion check *)

Lemma to_int64_range v : - 2 ^ 63 <= to_int64 v < 2 ^ 63.
Proof.
  unfold to_int64. pose proof (Z.mod_pos_bound v (2 ^ 64) ltac:(lia)) as H.
  destruct (v mod 2 ^ 64 <? 2 ^ 63) eqn:E;
    [apply Z.ltb_lt in E | apply Z.ltb_ge in E]; lia.
Qed.

Lemma to_int64_small v : - 2 ^ 63 <= v < 2 ^ 63 -> to_int64 v = v.
Proof.
  intros H. unfold to_int64.
  destruct (Z_lt_le_dec v 0) as [Hn|Hp].
  - replace (v mod 2 ^ 64) with (v + 2 ^ 64).
    + destruct (v + 2 ^ 64 <? 2 ^ 63) eqn:E;
        [apply Z.ltb_lt in E | apply Z.ltb_ge in E]; lia.
    + apply Z.mod_unique with (-1); lia.
  - rewrite Z.mod_small by lia.
    destruct (v <? 2 ^ 63) eqn:E; [reflexivity | apply Z.ltb_ge in E; lia].
Qed.

(** The high part [i >> n] is 0 or -1 exactly for the [i] of [n + 1] bits. *)
Lemma high_part_small i n :
  0 <= n -> - 2 ^ 63 <= i < 2 ^ 63 ->
  let ext := Z.shiftr i n in
  (negb (ext =? 0) && negb (ext mod 2 ^ 64 =? (-1) mod 2 ^ 64) = false)
  <-> - 2 ^ n <= i < 2 ^ n.
Proof.
  intros Hn Hi ext. unfold ext. rewrite Z.shiftr_div_pow2 by lia.
  assert (HP : 0 < 2 ^ n) by (apply Z.pow_pos_nonneg; lia).
  pose proof (Z.div_mod i (2 ^ n) ltac:(lia)) as Hdm.
  pose proof (Z.mod_pos_bound i (2 ^ n) HP) as Hr.
  set (P := 2 ^ n) in *. set (q := i / P) in *. set (r := i mod P) in *.
  assert (Hq : - 2 ^ 63 <= q < 2 ^ 63) by nia.
  assert (Hm1 : (q mod 2 ^ 64 =? (-1) mod 2 ^ 64) = (q =? -1)).
  { change ((-1) mod 2 ^ 64) with (2 ^ 64 - 1).
    destruct (Z_lt_le_dec q 0) as [Hneg|Hpos].
    - replace (q mod 2 ^ 64) with (q + 2 ^ 64)
        by (apply Z.mod_unique with (-1); lia).
      destruct (q =? -1) eqn:E; [apply Z.eqb_eq in E | apply Z.eqb_neq in E].
      + apply Z.eqb_eq. lia.
      + apply Z.eqb_neq. lia.
    - rewrite Z.mod_small by lia.
      destruct (q =? -1) eqn:E; [apply Z.eqb_eq in E; lia|].
      apply Z.eqb_neq. lia. }
  rewrite Hm1. split.
  - intros H. apply andb_false_iff in H.
    destruct H as [H|H]; apply negb_false_iff, Z.eqb_eq in H; nia.
  - intros H. apply andb_false_iff.
    destruct (Z_lt_le_dec i 0) as [Hneg|Hpos].
    + right. apply negb_false_iff, Z.eqb_eq. nia.
    + left. apply negb_false_iff, Z.eqb_eq. nia.
Qed.

Lemma wconv_accepts_iff size_type size_v v :
  0 < size_type < size_v ->
  truncation (_wconv size_type size_v v) = None
  <-> - 2 ^ (size_type * 8) <= to_int64 v < 2 ^ (size_type * 8).
Proof.
  intros Hs. unfold _wconv. cbn [truncation].
  destruct (size_type <? size_v) eqn:E; [|apply Z.ltb_ge in E; lia].
  rewrite <- (high_part_small (to_int64 v) (size_type * 8)) by (lia || apply to_int64_range).
  cbv zeta.
  destruct (negb (Z.shiftr (to_int64 v) (size_type * 8) =? 0)
            && negb (Z.shiftr (to_int64 v) (size_type * 8) mod 2 ^ 64 =? (-1) mod 2 ^ 64));
    split; intros H; congruence.
Qed.

Lemma converted_of_int64 size_type size_v v :
  0 < size_type <= 7 ->
  converted (_wconv size_type size_v v) = to_int64 v mod 2 ^ (size_type * 8).
Proof.
  intros Hs. unfold _wconv, to_int64. cbn [converted].
  set (n := size_type * 8).
  assert (Hn : 0 < n <= 56) by (unfold n; lia).
  assert (HP : 0 < 2 ^ n) by (apply Z.pow_pos_nonneg; lia).
  assert (H64 : 2 ^ 64 = 2 ^ (64 - n) * 2 ^ n).
  { rewrite <- Z.pow_add_r by lia. f_equal. lia. }
  assert (Hmm : (v mod 2 ^ 64) mod 2 ^ n = v mod 2 ^ n).
  { apply Z.mod_mod_divide. exists (2 ^ (64 - n)). exact H64. }
  destruct (v mod 2 ^ 64 <? 2 ^ 63); [now rewrite Hmm|].
  rewrite H64 at 2.
  replace (v mod 2 ^ 64 - 2 ^ (64 - n) * 2 ^ n)
    with (v mod 2 ^ 64 + (- 2 ^ (64 - n)) * 2 ^ n) by ring.
  rewrite Z.mod_add by lia. now rewrite Hmm.
Qed.

(** X11: the check of [w8], [w16] and [w32] ([_wconv]) is made only when
    the value's type is wider than the target.  It then takes the fatal
    branch exactly when the value, as an [int64_t], is outside
    [-2^n, 2^n), [n] being the bit width of the target: one bit more than
    the target holds.  The [ext] it reports is the value shifted right by
    [n] bits, neither 0 nor -1.  A value whose type is not wider than the
    target is never checked. *)
Theorem wconv_check_range :
  forall size_type size_v v,
    0 < size_type ->
    (size_type < size_v ->
     (truncation (_wconv size_type size_v v) = None
      <-> - 2 ^ (size_type * 8) <= to_int64 v < 2 ^ (size_type * 8))) /\
    (forall ext,
       truncation (_wconv size_type size_v v) = Some ext ->
       size_type < size_v /\
       ext = Z.shiftr (to_int64 v) (size_type * 8) /\ ext <> 0 /\ ext <> -1) /\
    (size_v <= size_type -> truncation (_wconv size_type size_v v) = None).
Proof.
  intros size_type size_v v Hpos. split; [|split].
  - intros Hlt. now apply wconv_accepts_iff.
  - intros ext H. unfold _wconv in H. cbn [truncation] in H.
    destruct (size_type <? size_v) eqn:E; [apply Z.ltb_lt in E|discriminate].
    cbv zeta in H.
    destruct (negb (Z.shiftr (to_int64 v) (size_type * 8) =? 0)
              && negb (Z.shiftr (to_int64 v) (size_type * 8) mod 2 ^ 64 =? (-1) mod 2 ^ 64))
      eqn:Ec; [|discriminate].
    inversion H; subst ext. apply andb_prop in Ec. destruct Ec as [E0 E1].
    apply negb_true_iff in E0, E1. apply Z.eqb_neq in E0, E1.
    repeat split; auto. intros Hm. apply E1. now rewrite Hm.
  - intros Hge. unfold _wconv. cbn [truncation].
    destruct (size_type <? size_v) eqn:E; [apply Z.ltb_lt in E; lia | reflexivity].
Qed.

Lemma wconv_check_range_witness :
  truncation (_wconv 1 4 (-200)) = None
  <-> - 2 ^ (1 * 8) <= to_int64 (-200) < 2 ^ (1 * 8).
Proof.
  apply (proj1 (wconv_check_range 1 4 (-200) ltac:(reflexivity))).
  reflexivity.
Defined.

(** X12: a value that passes the check of [_wconv] is written as itself
    when it is not negative and as its [n]-bit two's complement when it is
    negative.  Read back as a signed [n]-bit number it is the value again
    exactly when the value is in [-2^(n-1), 2^(n-1)); a value in
    [-2^n, -2^(n-1)) passes the check and comes back neither as itself nor
    as its signed reading: [w8(f, -200)] writes 56. *)
Theorem wconv_value :
  forall size_type size_v v,
    0 < size_type < size_v -> size_v <= 8 ->
    truncation (_wconv size_type size_v v) = None ->
    let n := size_type * 8 in
    let i := to_int64 v in
    let c := converted (_wconv size_type size_v v) in
    0 <= c < 2 ^ n /\
    (0 <= i -> c = i) /\
    (i < 0 -> c = i + 2 ^ n) /\
    (as_signed n c = i <-> - 2 ^ (n - 1) <= i < 2 ^ (n - 1)) /\
    (i < - 2 ^ (n - 1) -> c <> i /\ as_signed n c = i + 2 ^ n).
Proof.
  intros size_type size_v v Hs Hv Hacc n i c.
  apply wconv_accepts_iff in Hacc; [|lia]. fold n i in Hacc.
  assert (Hc : c = i mod 2 ^ n) by (apply converted_of_int64; lia).
  assert (Hn : 0 < n) by (unfold n; lia).
  assert (HP : 2 ^ n = 2 * 2 ^ (n - 1)).
  { replace n with (1 + (n - 1)) at 1 by lia. rewrite Z.pow_add_r by lia. reflexivity. }
  assert (HH : 0 < 2 ^ (n - 1)) by (apply Z.pow_pos_nonneg; lia).
  unfold as_signed.
  set (h := 2 ^ (n - 1)) in *. clearbody h.
  assert (Hci : (0 <= i -> c = i) /\ (i < 0 -> c = i + 2 ^ n)).
  { split; intros Hi; rewrite Hc.
    - apply Z.mod_small. lia.
    - symmetry. apply Z.mod_unique with (-1); lia. }
  destruct Hci as [Hnn Hneg].
  destruct (Z_lt_le_dec i 0) as [Hi|Hi];
    [rewrite (Hneg Hi) | rewrite (Hnn Hi)];
    match goal with |- context [?a <? h] => destruct (a <? h) eqn:E end;
    [apply Z.ltb_lt in E | apply Z.ltb_ge in E | apply Z.ltb_lt in E | apply Z.ltb_ge in E];
    repeat split; intros; lia.
Qed.

Lemma wconv_value_witness :
  converted (_wconv 1 4 (-200)) <> to_int64 (-200) /\
  as_signed (1 * 8) (converted (_wconv 1 4 (-200))) = to_int64 (-200) + 2 ^ (1 * 8).
Proof.
  refine (proj2 (proj2 (proj2 (proj2 (wconv_value 1 4 (-200) _ _ _)))) _).
  - split; reflexivity.
  - discriminate.
  - reflexivity.
  - reflexivity.
Defined.
